(** * dotline-winstick: the window attachment engine

    A shallow embedding of [src/main/windowAttach.ts] (the
    [WindowAttachService]), of [watchGeometry] from the X11 provider and of
    the types of [src/types/windowAttach.ts], together with the part of the
    JavaScript event loop the service relies on: [setInterval] /
    [clearInterval] and the suspension of an [async] timer callback at its
    [await] of a provider query.

    Numbers are modelled as [Z] (window ids and pixel coordinates are the
    integers produced by [Number.parseInt]); [number | null] is [option Z];
    an object reference that may be [null] is an [option].  The option
    [pollMs] of the constructor is whatever number the host passes, so it is
    a [Double]: a finite value, an infinity or NaN.

    The second part embeds the rest of the X11 provider, that is, the
    parsing of the output of [wmctrl], [xdotool] and [xwininfo] over strings
    of UTF-16 code units with [Number.parseInt] and the regular expressions
    written out, and the handlers of [registerWindowAttachIPC]. *)

From Stdlib Require Import ZArith QArith Lia Bool List.
From Stdlib Require Strings.String Strings.Ascii.
From stdpp Require Import base option list gmap.

Local Open Scope Z_scope.

(** ** Types ([src/types/windowAttach.ts]) *)

Record Geometry := {
  x : Z;
  y : Z;
  width : Z;
  height : Z
}.

(** [Electron.Rectangle] has the same four fields. *)
Abbreviation Rectangle := Geometry.

(** [X11Geometry = Geometry & { mapped: boolean }] *)
Record X11Geometry := {
  geom : Geometry;
  mapped : bool
}.

Inductive AttachMode := attached | detached | follow.

(** [m === "detached"] *)
Definition is_detached (m : AttachMode) : bool :=
  match m with detached => true | _ => false end.

Record AttachState := {
  mode : AttachMode;
  targetId : option Z;
  lastGeometry : option Geometry
}.

#[global] Instance Geometry_eq_dec : EqDecision Geometry.
Proof. solve_decision. Defined.
#[global] Instance X11Geometry_eq_dec : EqDecision X11Geometry.
Proof. solve_decision. Defined.
#[global] Instance AttachMode_eq_dec : EqDecision AttachMode.
Proof. solve_decision. Defined.
#[global] Instance AttachState_eq_dec : EqDecision AttachState.
Proof. solve_decision. Defined.

(** The comparison [a.x !== b.x || a.y !== b.y || a.width !== b.width ||
    a.height !== b.height] used by [applyOverlayBounds] and by
    [watchGeometry]. *)
Definition geometry_differs (a b : Geometry) : bool :=
  negb (x a =? x b) || negb (y a =? y b)
  || negb (width a =? width b) || negb (height a =? height b).

Arguments geometry_differs : simpl never.

(** ** The geometry watcher ([X11Provider.watchGeometry]) *)

(** What one tick of the watcher does with its [opts]. *)
Inductive Callback :=
| OnChange (g : X11Geometry)
| OnMissing.

(** [!last || g.x !== last.x || ... || g.mapped !== last.mapped] *)
Definition watch_changed (last : option X11Geometry) (g : X11Geometry) : bool :=
  match last with
  | None => true
  | Some l => geometry_differs (geom g) (geom l) || xorb (mapped g) (mapped l)
  end.

(** The body of the interval callback after [await this.getGeometry(windowId)]
    has produced [g]: the new value of the closure variable [last] and the
    callback of [opts] that is invoked, if any.  [hasOnMissing] says whether
    [opts.onMissing] was supplied. *)
Definition watchGeometry_tick (hasOnMissing : bool)
    (last : option X11Geometry) (g : option X11Geometry)
  : option X11Geometry * option Callback :=
  match g with
  | None => (last, if hasOnMissing then Some OnMissing else None)
  | Some g =>
      if watch_changed last g then (Some g, Some (OnChange g))
      else (last, None)
  end.

(** A run of the watcher over the results of successive polls, collecting the
    callbacks in the order they are invoked. *)
Fixpoint watchGeometry_run (hasOnMissing : bool) (last : option X11Geometry)
    (polls : list (option X11Geometry)) : option X11Geometry * list Callback :=
  match polls with
  | [] => (last, [])
  | g :: rest =>
      let '(last', c) := watchGeometry_tick hasOnMissing last g in
      let '(last'', cs) := watchGeometry_run hasOnMissing last' rest in
      (last'', match c with Some c => c :: cs | None => cs end)
  end.

Definition is_OnChange (c : Callback) : bool :=
  match c with OnChange _ => true | OnMissing => false end.

Definition count_OnChange (cs : list Callback) : nat :=
  length (List.filter is_OnChange cs).

(** ** The overlay window

    The part of Electron's [BrowserWindow] the service reads: its bounds and
    whether it is shown.  Every method call that changes the window is also
    recorded in the world's [trace]. *)

Record BrowserWindow := {
  bounds : Rectangle;
  visible : bool
}.

Inductive Effect :=
| SetBounds (r : Rectangle)
| SetAlwaysOnTop
| SetVisibleOnAllWorkspaces
| SetIgnoreMouseEvents
| ShowInactive
| Hide
| Invoked (watcher : nat) (c : Callback).

Definition is_SetBounds (e : Effect) : bool :=
  match e with SetBounds _ => true | _ => false end.

Definition is_Invoked_by (watcher : nat) (e : Effect) : bool :=
  match e with Invoked t _ => Nat.eqb t watcher | _ => false end.

(** ** The event loop

    [setInterval] registers a callback under a fresh timer id.  The three
    callbacks of the service are [async] functions that first [await] a
    provider query; between the timer firing and the query resolving the
    call is in flight.  [clearInterval] removes the timer, it does not touch
    the calls in flight. *)

Inductive Interval :=
| GeometryInterval (windowId : Z)      (* the timer of watchGeometry *)
| VisibilityInterval (windowId : Z)    (* visTimer of attach *)
| FollowInterval.                      (* timer of followFocused *)

Inductive Poll :=
| GeometryPoll (watcher : nat) (windowId : Z)   (* await this.getGeometry(windowId) *)
| VisibilityPoll (windowId : Z)                 (* await this.provider.getActiveWindow() *)
| FollowPoll (closure : nat).                   (* tick: await this.provider.getActiveWindow() *)

#[global] Instance Poll_eq_dec : EqDecision Poll.
Proof. solve_decision. Defined.

Fixpoint remove_first (p : Poll) (l : list Poll) : list Poll :=
  match l with
  | [] => []
  | q :: l' => if decide (p = q) then l' else q :: remove_first p l'
  end.

(** ** Numbers the host passes

    [opts.pollMs] is a JavaScript number, a double: a finite value, which is
    a rational, an infinity, or NaN.  The two zeros are not told apart. *)

Inductive Double :=
| DFinite (q : Q)
| DInfinite (negative : bool)
| DNaN.

(** [Math.min(a, b)]: NaN when either argument is NaN, else the smaller. *)
Definition Math_min (a b : Double) : Double :=
  match a, b with
  | DNaN, _ | _, DNaN => DNaN
  | DInfinite true, _ | _, DInfinite true => DInfinite true
  | DInfinite false, c | c, DInfinite false => c
  | DFinite p, DFinite q => if Qle_bool p q then a else b
  end.

(** [Math.max(a, b)]: NaN when either argument is NaN, else the larger. *)
Definition Math_max (a b : Double) : Double :=
  match a, b with
  | DNaN, _ | _, DNaN => DNaN
  | DInfinite false, _ | _, DInfinite false => DInfinite false
  | DInfinite true, c | c, DInfinite true => c
  | DFinite p, DFinite q => if Qle_bool q p then a else b
  end.

(** ** The service and its world *)

Record World := {
  (* fields of WindowAttachService *)
  enabled : bool;
  provider : bool;                       (* this.provider is not null *)
  pollMs : Double;
  state : AttachState;
  stopWatch : option nat;                (* () => clearInterval(timer) *)
  stopFollow : option nat;
  stopVisibilityWatch : option nat;
  preAttachBounds : option Rectangle;
  lastMapped : bool;
  lastActive : bool;
  (* what getOverlayWindow() and screen.getPrimaryDisplay().bounds return *)
  overlay : option BrowserWindow;
  primaryDisplay : Rectangle;
  (* the event loop *)
  timers : gmap nat Interval;
  nextTimer : nat;
  watchLast : gmap nat X11Geometry;      (* [last] of each watchGeometry call *)
  followLast : gmap nat Z;               (* [lastActive] of each followFocused call *)
  inflight : list Poll;
  (* overlay writes and watcher callbacks, most recent first *)
  trace : list Effect
}.

Definition set_state (st : AttachState) (w : World) : World :=
  {| enabled := enabled w; provider := provider w; pollMs := pollMs w;
     state := st;
     stopWatch := stopWatch w; stopFollow := stopFollow w;
     stopVisibilityWatch := stopVisibilityWatch w;
     preAttachBounds := preAttachBounds w;
     lastMapped := lastMapped w; lastActive := lastActive w;
     overlay := overlay w; primaryDisplay := primaryDisplay w;
     timers := timers w; nextTimer := nextTimer w;
     watchLast := watchLast w; followLast := followLast w;
     inflight := inflight w; trace := trace w |}.

(** The three [stop...] fields at once. *)
Definition set_stops (sw sf sv : option nat) (w : World) : World :=
  {| enabled := enabled w; provider := provider w; pollMs := pollMs w;
     state := state w;
     stopWatch := sw; stopFollow := sf; stopVisibilityWatch := sv;
     preAttachBounds := preAttachBounds w;
     lastMapped := lastMapped w; lastActive := lastActive w;
     overlay := overlay w; primaryDisplay := primaryDisplay w;
     timers := timers w; nextTimer := nextTimer w;
     watchLast := watchLast w; followLast := followLast w;
     inflight := inflight w; trace := trace w |}.

Definition set_preAttachBounds (b : option Rectangle) (w : World) : World :=
  {| enabled := enabled w; provider := provider w; pollMs := pollMs w;
     state := state w;
     stopWatch := stopWatch w; stopFollow := stopFollow w;
     stopVisibilityWatch := stopVisibilityWatch w;
     preAttachBounds := b;
     lastMapped := lastMapped w; lastActive := lastActive w;
     overlay := overlay w; primaryDisplay := primaryDisplay w;
     timers := timers w; nextTimer := nextTimer w;
     watchLast := watchLast w; followLast := followLast w;
     inflight := inflight w; trace := trace w |}.

Definition set_flags (m a : bool) (w : World) : World :=
  {| enabled := enabled w; provider := provider w; pollMs := pollMs w;
     state := state w;
     stopWatch := stopWatch w; stopFollow := stopFollow w;
     stopVisibilityWatch := stopVisibilityWatch w;
     preAttachBounds := preAttachBounds w;
     lastMapped := m; lastActive := a;
     overlay := overlay w; primaryDisplay := primaryDisplay w;
     timers := timers w; nextTimer := nextTimer w;
     watchLast := watchLast w; followLast := followLast w;
     inflight := inflight w; trace := trace w |}.

(** A method call on the overlay window: the window after it and its record
    in the trace. *)
Definition window_call (f : BrowserWindow -> BrowserWindow) (e : Effect)
    (w : World) : World :=
  {| enabled := enabled w; provider := provider w; pollMs := pollMs w;
     state := state w;
     stopWatch := stopWatch w; stopFollow := stopFollow w;
     stopVisibilityWatch := stopVisibilityWatch w;
     preAttachBounds := preAttachBounds w;
     lastMapped := lastMapped w; lastActive := lastActive w;
     overlay := f <$> overlay w; primaryDisplay := primaryDisplay w;
     timers := timers w; nextTimer := nextTimer w;
     watchLast := watchLast w; followLast := followLast w;
     inflight := inflight w; trace := e :: trace w |}.

(** A call that re-asserts an attribute of the window: it changes neither the
    bounds nor the visibility. *)
Definition record_effect (e : Effect) (w : World) : World :=
  {| enabled := enabled w; provider := provider w; pollMs := pollMs w;
     state := state w;
     stopWatch := stopWatch w; stopFollow := stopFollow w;
     stopVisibilityWatch := stopVisibilityWatch w;
     preAttachBounds := preAttachBounds w;
     lastMapped := lastMapped w; lastActive := lastActive w;
     overlay := overlay w; primaryDisplay := primaryDisplay w;
     timers := timers w; nextTimer := nextTimer w;
     watchLast := watchLast w; followLast := followLast w;
     inflight := inflight w; trace := e :: trace w |}.

Definition set_loop (ts : gmap nat Interval) (n : nat)
    (wl : gmap nat X11Geometry) (fl : gmap nat Z) (ps : list Poll)
    (w : World) : World :=
  {| enabled := enabled w; provider := provider w; pollMs := pollMs w;
     state := state w;
     stopWatch := stopWatch w; stopFollow := stopFollow w;
     stopVisibilityWatch := stopVisibilityWatch w;
     preAttachBounds := preAttachBounds w;
     lastMapped := lastMapped w; lastActive := lastActive w;
     overlay := overlay w; primaryDisplay := primaryDisplay w;
     timers := ts; nextTimer := n;
     watchLast := wl; followLast := fl;
     inflight := ps; trace := trace w |}.

(** *** Methods of the overlay window *)

Definition isVisible (w : World) : bool :=
  match overlay w with Some win => visible win | None => false end.

Definition hide : World -> World :=
  window_call (fun win => {| bounds := bounds win; visible := false |}) Hide.

Definition showInactive : World -> World :=
  window_call (fun win => {| bounds := bounds win; visible := true |}) ShowInactive.

Definition setBounds (r : Rectangle) : World -> World :=
  window_call (fun win => {| bounds := r; visible := visible win |}) (SetBounds r).

(** [win.setAlwaysOnTop(true, "screen-saver");
     win.setVisibleOnAllWorkspaces(true, { visibleOnFullScreen: true });
     win.setIgnoreMouseEvents(true, { forward: true })] *)
Definition assert_attributes (w : World) : World :=
  record_effect SetIgnoreMouseEvents
    (record_effect SetVisibleOnAllWorkspaces
       (record_effect SetAlwaysOnTop w)).

(** *** Timers *)

Definition setInterval (k : Interval) (w : World) : nat * World :=
  (nextTimer w,
   set_loop (<[nextTimer w := k]> (timers w)) (S (nextTimer w))
            (watchLast w) (followLast w) (inflight w) w).

Definition clearInterval (t : nat) (w : World) : World :=
  set_loop (delete t (timers w)) (nextTimer w)
           (watchLast w) (followLast w) (inflight w) w.

Definition start_poll (p : Poll) (w : World) : World :=
  set_loop (timers w) (nextTimer w) (watchLast w) (followLast w)
           (inflight w ++ [p]) w.

(** [watchGeometry(windowId, opts)]: a fresh closure variable [last = null]
    and a fresh timer; the returned cancel function is
    [() => clearInterval(timer)], represented by the timer id. *)
Definition watchGeometry (windowId : Z) (w : World) : nat * World :=
  let '(t, w) := setInterval (GeometryInterval windowId) w in
  (t, set_loop (timers w) (nextTimer w) (delete t (watchLast w))
               (followLast w) (inflight w) w).

(** *** [WindowAttachService] *)

(** The constructor: [Math.max(50, Math.min(500, opts?.pollMs ?? 100))];
    [x11] is [isX11Session()]. *)
Definition WindowAttachService_new (getOverlayWindow : option BrowserWindow)
    (display : Rectangle) (optPollMs : option Double) (optEnabled : option bool)
    (x11 : bool) : World :=
  let en := default x11 optEnabled in
  {| enabled := en; provider := en && x11;
     pollMs := Math_max (DFinite 50)
                 (Math_min (DFinite 500) (default (DFinite 100) optPollMs));
     state := {| mode := detached; targetId := None; lastGeometry := None |};
     stopWatch := None; stopFollow := None; stopVisibilityWatch := None;
     preAttachBounds := None;
     lastMapped := false; lastActive := false;
     overlay := getOverlayWindow; primaryDisplay := display;
     timers := ∅; nextTimer := 0%nat;
     watchLast := ∅; followLast := ∅;
     inflight := []; trace := [] |}.

Definition getState (w : World) : AttachState :=
  {| mode := mode (state w); targetId := targetId (state w);
     lastGeometry := lastGeometry (state w) |}.

(** [this.enabled && !!this.provider] *)
Definition isEnabled (w : World) : bool := enabled w && provider w.

(** [setBounds] receives a fresh object with the four fields of [g], that
    is, [g] as a [Rectangle]. *)
Definition applyOverlayBounds (g : Geometry) (mapped : bool) (w : World) : World :=
  match overlay w with
  | None => w
  | Some win =>
      if negb mapped then
        if visible win then hide w else w
      else
        let b := bounds win in
        if geometry_differs b g then
          let w := setBounds g w in
          let w := assert_attributes w in
          if negb (isVisible w) then showInactive w else w
        else if negb (visible win) && mapped then showInactive w
        else w
  end.

(** Each [stop...] field that is set is called and reset to [null]. *)
Definition stopAll (w : World) : World :=
  let w := match stopWatch w with
           | Some t => set_stops None (stopFollow w) (stopVisibilityWatch w)
                                 (clearInterval t w)
           | None => w
           end in
  let w := match stopFollow w with
           | Some t => set_stops (stopWatch w) None (stopVisibilityWatch w)
                                 (clearInterval t w)
           | None => w
           end in
  match stopVisibilityWatch w with
  | Some t => set_stops (stopWatch w) (stopFollow w) None (clearInterval t w)
  | None => w
  end.

(** The snapshot if there is one, else the bounds of the primary display;
    then the attributes, then [showInactive] if the window is hidden. *)
Definition restoreOverlayBounds (w : World) : World :=
  match overlay w with
  | None => w
  | Some _ =>
      let w := match preAttachBounds w with
               | Some b => setBounds b w
               | None => setBounds (primaryDisplay w) w
               end in
      let w := assert_attributes w in
      if negb (isVisible w) then showInactive w else w
  end.

(** [shouldShow = this.lastMapped && this.lastActive] *)
Definition syncOverlayVisibility (w : World) : World :=
  match overlay w with
  | None => w
  | Some win =>
      let shouldShow := lastMapped w && lastActive w in
      if shouldShow then
        if negb (visible win) then showInactive w else w
      else
        if visible win then hide w else w
  end.

(** The [onChange] handler that [attach] passes to [watchGeometry]. *)
Definition onChange (g : X11Geometry) (w : World) : World :=
  let w := set_state {| mode := mode (state w); targetId := targetId (state w);
                        lastGeometry := Some (geom g) |} w in
  let w := set_flags (mapped g) (lastActive w) w in
  let w := applyOverlayBounds (geom g) (mapped g) w in
  syncOverlayVisibility w.

(** The [onMissing] handler that [attach] passes to [watchGeometry]. *)
Definition onMissing (w : World) : World :=
  let ow := overlay w in
  let w := set_flags false (lastActive w) w in
  match ow with
  | Some win => if visible win then hide w else w
  | None => w
  end.

Definition detached_state : AttachState :=
  {| mode := detached; targetId := None; lastGeometry := None |}.

(** [attach] has no [await] in its body: it runs to its [return] in one
    piece.  The result is the value its promise resolves to. *)
Definition attach (windowId : Z) (w : World) : bool * World :=
  if negb (isEnabled w) then (false, w) else
  match overlay w with
  | None => (false, w)
  | Some win =>
      let w := if is_detached (mode (state w))
               then set_preAttachBounds (Some (bounds win)) w else w in
      let w := stopAll w in
      let w := set_state {| mode := attached; targetId := Some windowId;
                            lastGeometry := None |} w in
      let '(t, w) := watchGeometry windowId w in
      let w := set_stops (Some t) (stopFollow w) (stopVisibilityWatch w) w in
      let '(v, w) := setInterval (VisibilityInterval windowId) w in
      let w := set_stops (stopWatch w) (stopFollow w) (Some v) w in
      (true, w)
  end.

(** [followFocused(true)] runs up to [await tick()], where the first tick is
    suspended at its query; its promise resolves to [true] when that tick
    has finished.  The closure variable [lastActive] of the call is kept in
    [followLast] under the id of the call's timer. *)
Definition followFocused (enable : bool) (w : World) : bool * World :=
  if negb (isEnabled w) then (false, w) else
  let w := stopAll w in
  if negb enable then
    let w := set_state detached_state w in
    (true, restoreOverlayBounds w)
  else
    let w := set_state {| mode := follow; targetId := None;
                          lastGeometry := None |} w in
    (* let lastActive = null; const timer = setInterval(...) *)
    let '(t, w) := setInterval FollowInterval w in
    let w := set_loop (timers w) (nextTimer w) (watchLast w)
                      (delete t (followLast w)) (inflight w) w in
    let w := set_stops (stopWatch w) (Some t) (stopVisibilityWatch w) w in
    (* await tick(): the first tick starts now and suspends at its query *)
    let w := start_poll (FollowPoll t) w in
    (true, w).

(** [detach] never refuses: without provider it only resets the state. *)
Definition detach (w : World) : bool * World :=
  if negb (isEnabled w) then (true, set_state detached_state w) else
  let w := stopAll w in
  let w := set_state detached_state w in
  (true, restoreOverlayBounds w).

(** *** The asynchronous callbacks *)

(** A timer fires: its callback runs up to the [await] of its query. *)
Definition timer_fires (t : nat) (w : World) : World :=
  match timers w !! t with
  | Some (GeometryInterval windowId) => start_poll (GeometryPoll t windowId) w
  | Some (VisibilityInterval windowId) => start_poll (VisibilityPoll windowId) w
  | Some FollowInterval => start_poll (FollowPoll t) w
  | None => w
  end.

Definition resolve (p : Poll) (w : World) : World :=
  set_loop (timers w) (nextTimer w) (watchLast w) (followLast w)
           (remove_first p (inflight w)) w.

(** The callback of [watchGeometry]'s timer, resumed with the result [r] of
    [getGeometry]; [opts] are the two handlers of [attach]. *)
Definition geometry_resume (watcher : nat) (r : option X11Geometry)
    (w : World) : World :=
  let '(last', c) := watchGeometry_tick true (watchLast w !! watcher) r in
  let w := set_loop (timers w) (nextTimer w)
                    (partial_alter (fun _ => last') watcher (watchLast w))
                    (followLast w) (inflight w) w in
  match c with
  | Some (OnChange g) => onChange g (record_effect (Invoked watcher (OnChange g)) w)
  | Some OnMissing => onMissing (record_effect (Invoked watcher OnMissing) w)
  | None => w
  end.

(** The visibility watchdog of [attach windowId], resumed with the result of
    [getActiveWindow]. *)
Definition visibility_resume (windowId : Z) (active : option Z)
    (w : World) : World :=
  let w := set_flags (lastMapped w) (bool_decide (active = Some windowId)) w in
  syncOverlayVisibility w.

(** [tick] of [followFocused], resumed with the result of [getActiveWindow].
    [attach] has no [await] in its body, so [await this.attach(id)] resumes
    in a microtask of the same turn of the event loop: the assignment
    [this.state.mode = "follow"] runs before any other task. *)
Definition follow_resume (closure : nat) (id : option Z) (w : World) : World :=
  match id with
  | None => w
  | Some id =>
      if id =? 0 then w
      else if decide (followLast w !! closure = Some id) then w
      else
        let w := set_loop (timers w) (nextTimer w) (watchLast w)
                          (<[closure := id]> (followLast w)) (inflight w) w in
        let '(_, w) := attach id w in
        set_state {| mode := follow; targetId := targetId (state w);
                     lastGeometry := lastGeometry (state w) |} w
  end.

(** ** Runs of the engine

    One event is one task of the event loop: a call of the host, a timer
    firing, or a pending query resolving with a result chosen by the
    environment.  An event that cannot happen (a cleared timer firing, a
    query that is not in flight resolving) leaves the world as it is. *)

Inductive Event :=
| Attach (windowId : Z)
| Detach
| FollowFocused (enable : bool)
| TimerFires (t : nat)
| GeometryResolves (watcher : nat) (windowId : Z) (r : option X11Geometry)
| ActiveResolves (windowId : Z) (active : option Z)
| FollowResolves (closure : nat) (active : option Z).

Definition step (e : Event) (w : World) : World :=
  match e with
  | Attach windowId => (attach windowId w).2
  | Detach => (detach w).2
  | FollowFocused enable => (followFocused enable w).2
  | TimerFires t => timer_fires t w
  | GeometryResolves t windowId r =>
      if decide (GeometryPoll t windowId ∈ inflight w)
      then geometry_resume t r (resolve (GeometryPoll t windowId) w)
      else w
  | ActiveResolves windowId r =>
      if decide (VisibilityPoll windowId ∈ inflight w)
      then visibility_resume windowId r (resolve (VisibilityPoll windowId) w)
      else w
  | FollowResolves closure r =>
      if decide (FollowPoll closure ∈ inflight w)
      then follow_resume closure r (resolve (FollowPoll closure) w)
      else w
  end.

Fixpoint run (es : list Event) (w : World) : World :=
  match es with
  | [] => w
  | e :: es => run es (step e w)
  end.

(** Calls of the host, as opposed to timers and resolving queries. *)
Definition is_host_call (e : Event) : bool :=
  match e with
  | Attach _ | Detach | FollowFocused _ => true
  | _ => false
  end.

(** ** Vocabulary of the properties *)

Definition rect (a b c d : Z) : Rectangle :=
  {| x := a; y := b; width := c; height := d |}.

(** An enabled service on an X11 session with a visible full-screen overlay,
    and a mapped target at (100, 100) of size 800 x 600. *)
Definition world0 : World :=
  WindowAttachService_new (Some {| bounds := rect 0 0 1920 1080; visible := true |})
    (rect 0 0 1920 1080) None None true.

Definition g1 : X11Geometry := {| geom := rect 100 100 800 600; mapped := true |}.


(** Some field of [g] differs from the previously emitted [l]. *)
Definition differs_from (l g : X11Geometry) : Prop :=
  x (geom g) ≠ x (geom l) ∨ y (geom g) ≠ y (geom l)
  ∨ width (geom g) ≠ width (geom l) ∨ height (geom g) ≠ height (geom l)
  ∨ mapped g ≠ mapped l.


(** The [setBounds] calls of a trace, most recent first. *)
Definition bounds_writes (w : World) : list Effect :=
  List.filter is_SetBounds (trace w).

(** The callbacks that watcher [t] has invoked. *)
Definition invoked_by (t : nat) (w : World) : list Effect :=
  List.filter (is_Invoked_by t) (trace w).

(** The bounds [restoreOverlayBounds] writes. *)
Definition restore_target (w : World) : Rectangle :=
  default (primaryDisplay w) (preAttachBounds w).

(** What remains of the timers after calling a [stop...] field. *)
Definition cancel (stop : option nat) (ts : gmap nat Interval) : gmap nat Interval :=
  match stop with
  | Some t => delete t ts
  | None => ts
  end.

(** A service constructed with [enabled: false]. *)
Definition world_disabled : World :=
  WindowAttachService_new (Some {| bounds := rect 0 0 1920 1080; visible := true |})
    (rect 0 0 1920 1080) None (Some false) true.

(** Worlds that a service can be in: constructed, then driven by events. *)
Definition reachable (w : World) : Prop :=
  ∃ ov display optPollMs optEnabled x11 es,
    w = run es (WindowAttachService_new ov display optPollMs optEnabled x11).

(** Every live timer is the one some [stop...] field clears. *)
Definition timers_owned (w : World) : Prop :=
  ∀ t, is_Some (timers w !! t) →
       stopWatch w = Some t ∨ stopFollow w = Some t
       ∨ stopVisibilityWatch w = Some t.

(** A service without provider never starts anything. *)
Definition idle_when_disabled (w : World) : Prop :=
  isEnabled w = false →
  timers w = ∅ ∧ inflight w = [] ∧ state w = detached_state.

Definition wf (w : World) : Prop := timers_owned w ∧ idle_when_disabled w.

Definition has_overlay (w : World) : bool :=
  match overlay w with Some _ => true | None => false end.

(** What the handlers that only drive the overlay leave alone: the event
    loop, the [stop...] fields, the snapshot, and the mode and target. *)
Definition same_control (w w' : World) : Prop :=
  enabled w' = enabled w ∧ provider w' = provider w
  ∧ timers w' = timers w ∧ nextTimer w' = nextTimer w
  ∧ watchLast w' = watchLast w ∧ followLast w' = followLast w
  ∧ inflight w' = inflight w
  ∧ stopWatch w' = stopWatch w ∧ stopFollow w' = stopFollow w
  ∧ stopVisibilityWatch w' = stopVisibilityWatch w
  ∧ preAttachBounds w' = preAttachBounds w
  ∧ primaryDisplay w' = primaryDisplay w
  ∧ mode (state w') = mode (state w)
  ∧ targetId (state w') = targetId (state w)
  ∧ has_overlay w' = has_overlay w
  ∧ ∀ t, invoked_by t w' = invoked_by t w.

(** The world in which [attach] installs its watchers: the snapshot taken if
    the mode is [detached], then [stopAll]. *)
Definition attach_prepared (win : BrowserWindow) (w : World) : World :=
  stopAll (if is_detached (mode (state w))
           then set_preAttachBounds (Some (bounds win)) w else w).

(** The bounds-restore write of one [detach()]. *)
Definition restore_write (w : World) : list Effect :=
  if isEnabled w then
    match overlay w with
    | Some _ => [SetBounds (restore_target w)]
    | None => []
    end
  else [].

(** The [setBounds] call the geometry-change handler issues for [g]. *)
Definition tracking_write (g : X11Geometry) (w : World) : list Effect :=
  match overlay w with
  | Some win =>
      if mapped g && geometry_differs (bounds win) (geom g)
      then [SetBounds (geom g)] else []
  | None => []
  end.

(** Calls of the host that release the attachment. *)
Definition releases (e : Event) : bool :=
  match e with
  | Detach | FollowFocused false => true
  | _ => false
  end.

(** The part of the world an attachment keeps until it is released. *)
Definition holds_snapshot (b0 : Rectangle) (w : World) : Prop :=
  preAttachBounds w = Some b0
  ∧ is_detached (mode (state w)) = false
  ∧ isEnabled w = true
  ∧ has_overlay w = true.




(** Nothing is left of the poll loop of [followFocused]: no timer that would
    start a tick and no tick waiting for its query. *)
Definition no_follow_loop (w : World) : Prop :=
  (∀ t, timers w !! t ≠ Some FollowInterval)
  ∧ (∀ closure, FollowPoll closure ∉ inflight w).

(** The world in which follow mode has attached to window 5. *)
Definition world_following : World :=
  run [FollowFocused true; FollowResolves 0 (Some 5)] world0.

(** Watcher [t] has been cancelled and none of its polls is in flight. *)
Definition watcher_retired (t : nat) (w : World) : Prop :=
  timers w !! t = None
  ∧ (∀ windowId, GeometryPoll t windowId ∉ inflight w)
  ∧ (t < nextTimer w)%nat.


(** ** Further vocabulary: the service as a whole *)

(** The timers a service can have running: none, the follow loop alone, or
    the geometry watcher and the visibility watchdog of one window. *)
Definition timers_shape (w : World) : Prop :=
  timers w = ∅
  ∨ (∃ f, timers w = {[f := FollowInterval]})
  ∨ (∃ a b windowId,
       a ≠ b
       ∧ timers w = <[b := VisibilityInterval windowId]>
                      (<[a := GeometryInterval windowId]> ∅)
       ∧ targetId (state w) = Some windowId).

(** The snapshot an attachment started in follow mode works with. *)
Definition keeps_snapshot (pb : option Rectangle) (w : World) : Prop :=
  preAttachBounds w = pb ∧ is_detached (mode (state w)) = false.

(** ** Strings and numbers of the X11 provider

    A JavaScript string is a sequence of UTF-16 code units, here [N].  The
    provider reads the standard output of [wmctrl], [xdotool] and
    [xwininfo], decoded to such a string. *)

Abbreviation Str := (list N).

(** White space and line terminators: what [String.prototype.trim] strips
    and what [\s] matches. *)
Definition isSpace (c : N) : bool :=
  ((9 <=? c) && (c <=? 13) || (c =? 32) || (c =? 160) || (c =? 0x1680)
   || (0x2000 <=? c) && (c <=? 0x200a) || (c =? 0x2028) || (c =? 0x2029)
   || (c =? 0x202f) || (c =? 0x205f) || (c =? 0x3000) || (c =? 0xfeff))%N.

(** What [.] does not match. *)
Definition isLineTerminator (c : N) : bool :=
  ((c =? 10) || (c =? 13) || (c =? 0x2028) || (c =? 0x2029))%N.

(** [\d] *)
Definition isDigit (c : N) : bool := ((48 <=? c) && (c <=? 57))%N.

(** [[\da-fA-F]] *)
Definition isHexDigit (c : N) : bool :=
  (isDigit c || (97 <=? c) && (c <=? 102) || (65 <=? c) && (c <=? 70))%N.

Fixpoint takeWhile (f : N → bool) (s : Str) : Str :=
  match s with
  | c :: r => if f c then c :: takeWhile f r else []
  | [] => []
  end.

Fixpoint dropWhile (f : N → bool) (s : Str) : Str :=
  match s with
  | c :: r => if f c then dropWhile f r else s
  | [] => []
  end.

Definition trimStart (s : Str) : Str := dropWhile isSpace s.
Definition trimEnd (s : Str) : Str := rev (dropWhile isSpace (rev s)).
Definition trim (s : Str) : Str := trimEnd (trimStart s).

(** [s.startsWith(p)], with what follows the prefix. *)
Fixpoint stripPrefix (p s : Str) : option Str :=
  match p, s with
  | [], _ => Some s
  | a :: p', c :: s' => if (a =? c)%N then stripPrefix p' s' else None
  | _ :: _, [] => None
  end.

Definition startsWith (p s : Str) : bool :=
  match stripPrefix p s with Some _ => true | None => false end.

(** [s.includes(p)] *)
Fixpoint includes (p s : Str) : bool :=
  startsWith p s || match s with
                    | _ :: r => includes p r
                    | [] => false
                    end.

(** [s.split(sep)] for a separator of one code unit: never empty. *)
Fixpoint split (sep : N) (s : Str) : list Str :=
  match s with
  | [] => [[]]
  | c :: r =>
      if (c =? sep)%N then [] :: split sep r
      else match split sep r with
           | l :: ls => (c :: l) :: ls
           | [] => [[c]]
           end
  end.

(** The Number values that [Number.parseInt] can produce: an integer that
    is a double, an infinity, or NaN.  The two zeros are not told apart; no
    code here can tell them apart. *)
Inductive Number :=
| Finite (z : Z)
| Infinite (negative : bool)
| NaN.

(** The double nearest to the natural number [v], ties to even; [None] when
    that is beyond the largest double. *)
Definition nearestDouble (v : N) : option N :=
  (if v <? 2 ^ 53 then Some v
   else
     let e := N.log2 v - 52 in
     let q := N.shiftr v e in
     let r := v mod 2 ^ e in
     let half := 2 ^ (e - 1) in
     let q' := if (half <? r) || (r =? half) && N.odd q then q + 1 else q in
     let m := q' * 2 ^ e in
     if m <? 2 ^ 1024 then Some m else None)%N.

Definition toNumber (negative : bool) (v : N) : Number :=
  match nearestDouble v with
  | Some m => Finite (if negative then - Z.of_N m else Z.of_N m)
  | None => Infinite negative
  end.

(** The value of [c] as a digit of the radix, if it is one. *)
Definition digitValue (radix : N) (c : N) : option N :=
  (let v := if isDigit c then Some (c - 48)
            else if (97 <=? c) && (c <=? 122) then Some (c - 87)
            else if (65 <=? c) && (c <=? 90) then Some (c - 55)
            else None in
   match v with
   | Some d => if d <? radix then Some d else None
   | None => None
   end)%N.

(** The values of the longest prefix of radix digits. *)
Fixpoint radixPrefix (radix : N) (s : Str) : list N :=
  match s with
  | c :: r => match digitValue radix c with
              | Some d => d :: radixPrefix radix r
              | None => []
              end
  | [] => []
  end.

Definition radixValue (radix : N) (ds : list N) : N :=
  fold_left (λ a d, a * radix + d)%N ds 0%N.

(** [Number.parseInt(s, radix)] for a radix of 10 or 16: leading white
    space, a sign, for radix 16 a prefix [0x] or [0X], then the longest run
    of digits; NaN when there is none.  The mathematical value is rounded to
    the nearest double. *)
Definition parseInt (radix : N) (s : Str) : Number :=
  let s := trimStart s in
  let '(negative, s) :=
    match s with
    | c :: r => if (c =? 45)%N then (true, r)
                else if (c =? 43)%N then (false, r) else (false, s)
    | [] => (false, s)
    end in
  let s := if (radix =? 16)%N then
             match s with
             | z :: x :: r =>
                 if ((z =? 48) && ((x =? 120) || (x =? 88)))%N then r else s
             | _ => s
             end
           else s in
  match radixPrefix radix s with
  | [] => NaN
  | ds => toNumber negative (radixValue radix ds)
  end.

(** [Number.isFinite(n) ? n : null] *)
Definition finiteOrNull (n : Number) : option Z :=
  match n with Finite z => Some z | _ => None end.

Definition parseDecimalId (input : Str) : option Z :=
  let trimmed := trim input in
  match trimmed with
  | [] => None
  | _ => finiteOrNull (parseInt 10 trimmed)
  end.

(** [/^0x/i.test(trimmed)] *)
Definition has0xPrefix (s : Str) : bool :=
  match s with
  | z :: x :: _ => ((z =? 48) && ((x =? 120) || (x =? 88)))%N
  | _ => false
  end.

Definition parseHexId (input : Str) : option Z :=
  let trimmed := trim input in
  if negb (has0xPrefix trimmed) then None
  else finiteOrNull (parseInt 16 trimmed).

(** What [execFileAsync] gives: the standard output, or a rejection (the
    tool is missing or exits with an error). *)
Inductive ExecResult :=
| ExecOk (stdout : Str)
| ExecFail.

Definition X11Provider_getActiveWindow (r : ExecResult) : option Z :=
  match r with
  | ExecOk stdout => parseDecimalId stdout
  | ExecFail => None
  end.

(** The code units of a string literal of ASCII characters. *)
Definition lit (s : String.string) : Str :=
  map Ascii.N_of_ascii (String.list_ascii_of_string s).

(** The keys of the [xwininfo] output and of the regular expressions applied
    to its lines. *)
Module Keys.
Import String.
Definition absX : Str := lit "Absolute upper-left X:".
Definition absY : Str := lit "Absolute upper-left Y:".
Definition width : Str := lit "Width:".
Definition height : Str := lit "Height:".
Definition mapState : Str := lit "Map State:".
Definition isViewable : Str := lit "IsViewable".
Definition reX : Str := lit "X:".
Definition reY : Str := lit "Y:".
End Keys.

(** One attempt of [/KEY\s*(\-?\d+)/] (signed) or [/KEY\s*(\d+)/] at the
    start of [s]: the capture.  White space, sign and digits are disjoint
    classes, so the greedy choices are the only ones that can succeed. *)
Definition matchNumberAt (key : Str) (signed : bool) (s : Str) : option Str :=
  match stripPrefix key s with
  | None => None
  | Some r =>
      let r := dropWhile isSpace r in
      let '(sign, r) :=
        match r with
        | c :: r' => if signed && (c =? 45)%N then ([c], r') else ([], r)
        | [] => ([], r)
        end in
      match takeWhile isDigit r with
      | [] => None
      | ds => Some (sign ++ ds)
      end
  end.

(** [s.match(re)] for such a regular expression: the capture of the
    leftmost match. *)
Fixpoint searchNumber (key : Str) (signed : bool) (s : Str) : option Str :=
  match matchNumberAt key signed s with
  | Some m1 => Some m1
  | None => match s with
            | _ :: r => searchNumber key signed r
            | [] => None
            end
  end.

(** What [getGeometry] returns, with the numbers as [parseInt] gives them. *)
Module Raw.
Record Geometry := {
  x : Number;
  y : Number;
  width : Number;
  height : Number;
  mapped : bool
}.
End Raw.

(** [n <= 0] *)
Definition numberLe0 (n : Number) : bool :=
  match n with
  | Finite z => z <=? 0
  | Infinite negative => negative
  | NaN => false
  end.

(** The body of the loop of [getGeometry] over the lines of the output. *)
Definition getGeometry_line (g : Raw.Geometry) (line : Str) : Raw.Geometry :=
  let lx := trim line in
  if startsWith Keys.absX lx then
    match searchNumber Keys.reX true lx with
    | Some m1 => {| Raw.x := parseInt 10 m1; Raw.y := Raw.y g;
                    Raw.width := Raw.width g; Raw.height := Raw.height g;
                    Raw.mapped := Raw.mapped g |}
    | None => g
    end
  else if startsWith Keys.absY lx then
    match searchNumber Keys.reY true lx with
    | Some m1 => {| Raw.x := Raw.x g; Raw.y := parseInt 10 m1;
                    Raw.width := Raw.width g; Raw.height := Raw.height g;
                    Raw.mapped := Raw.mapped g |}
    | None => g
    end
  else if startsWith Keys.width lx then
    match searchNumber Keys.width false lx with
    | Some m1 => {| Raw.x := Raw.x g; Raw.y := Raw.y g;
                    Raw.width := parseInt 10 m1; Raw.height := Raw.height g;
                    Raw.mapped := Raw.mapped g |}
    | None => g
    end
  else if startsWith Keys.height lx then
    match searchNumber Keys.height false lx with
    | Some m1 => {| Raw.x := Raw.x g; Raw.y := Raw.y g;
                    Raw.width := Raw.width g; Raw.height := parseInt 10 m1;
                    Raw.mapped := Raw.mapped g |}
    | None => g
    end
  else if startsWith Keys.mapState lx then
    {| Raw.x := Raw.x g; Raw.y := Raw.y g;
       Raw.width := Raw.width g; Raw.height := Raw.height g;
       Raw.mapped := includes Keys.isViewable lx |}
  else g.

(** [let x = 0, y = 0, width = 0, height = 0, mapped = false] *)
Definition getGeometry_init : Raw.Geometry :=
  {| Raw.x := Finite 0; Raw.y := Finite 0; Raw.width := Finite 0;
     Raw.height := Finite 0; Raw.mapped := false |}.

Definition getGeometry_parse (stdout : Str) : option Raw.Geometry :=
  let g := fold_left getGeometry_line (split 10 stdout) getGeometry_init in
  if numberLe0 (Raw.width g) || numberLe0 (Raw.height g) then None
  else Some g.

Definition X11Provider_getGeometry (r : ExecResult) : option Raw.Geometry :=
  match r with
  | ExecOk stdout => getGeometry_parse stdout
  | ExecFail => None
  end.

(** The geometry the service works with, when the four numbers are
    finite. *)
Definition geometryOfRaw (g : Raw.Geometry) : option X11Geometry :=
  match Raw.x g, Raw.y g, Raw.width g, Raw.height g with
  | Finite a, Finite b, Finite c, Finite d =>
      Some {| geom := {| x := a; y := b; width := c; height := d |};
              mapped := Raw.mapped g |}
  | _, _, _, _ => None
  end.

(** [WindowRef] of [src/types/windowAttach.ts]. *)
Module WindowRef.
Record t := {
  id : Z;
  title : Str;
  wmClass : Str
}.
End WindowRef.

(** A run of one or more code units of a class, and what follows it. *)
Definition some (f : N → bool) (s : Str) : option (Str * Str) :=
  match takeWhile f s with
  | [] => None
  | run => Some (run, dropWhile f s)
  end.

Definition notSpace (c : N) : bool := negb (isSpace c).

(** [line.match(re)] for the regular expression of [listWindows], anchored
    at both ends: [0x] and hexadecimal digits (first capture), white space,
    two fields without white space, each followed by white space, the class
    without white space (second capture), white space, and the rest of the
    line, any code units but line terminators (third capture).  Consecutive
    pieces are runs of disjoint classes, so each run is the longest one. *)
Definition matchWindowLine (line : Str) : option (Str * Str * Str) :=
  match line with
  | z :: x :: r =>
      if ((z =? 48) && (x =? 120))%N then
        '(hex, r) ← some isHexDigit r;
        '(_, r) ← some isSpace r;
        '(_, r) ← some notSpace r;
        '(_, r) ← some isSpace r;
        '(_, r) ← some notSpace r;
        '(_, r) ← some isSpace r;
        '(cls, r) ← some notSpace r;
        '(_, r) ← some isSpace r;
        if existsb isLineTerminator r then None
        else Some (z :: x :: hex, cls, r)
      else None
  | _ => None
  end.

(** The body of the loop of [listWindows] for one line: the entry pushed,
    if any. *)
Definition windowOfLine (line : Str) : option WindowRef.t :=
  '(m1, m2, m3) ← matchWindowLine line;
  id ← parseHexId m1;
  Some {| WindowRef.id := id; WindowRef.title := m3; WindowRef.wmClass := m2 |}.

(** [stdout.split("\n").filter(Boolean)] *)
Definition nonEmptyLines (stdout : Str) : list Str :=
  List.filter (λ l, match l with [] => false | _ => true end) (split 10 stdout).

Definition X11Provider_listWindows (r : ExecResult) : list WindowRef.t :=
  match r with
  | ExecOk stdout => omap windowOfLine (nonEmptyLines stdout)
  | ExecFail => []
  end.

(** ** The remaining members of the service *)

(** [listWindows()]: [listing] is what the provider returns. *)
Definition listWindows (listing : list WindowRef.t) (w : World)
  : list WindowRef.t :=
  if negb (isEnabled w) then [] else listing.

(** The channels registered by [registerWindowAttachIPC], with the arguments
    of a request, and what the handler resolves or rejects with. *)
Inductive Request :=
| WindowAttachList
| WindowAttachAttach (id : Z)
| WindowAttachDetach
| WindowAttachFollowFocused (enable : bool)
| WindowAttachState.

Inductive Reply :=
| Windows (ws : list WindowRef.t)
| Done (result : bool)
| State (st : AttachState)
| Rejected (message : Str).

Module Messages.
Import String.
Definition requiresX11 : Str :=
  lit "Window attachment requires X11 session on Linux.".
End Messages.

Definition handle (listing : list WindowRef.t) (r : Request) (w : World)
  : Reply * World :=
  match r with
  | WindowAttachList =>
      if negb (isEnabled w) then (Rejected Messages.requiresX11, w)
      else (Windows (listWindows listing w), w)
  | WindowAttachAttach id =>
      if negb (isEnabled w) then (Rejected Messages.requiresX11, w)
      else let '(b, w) := attach id w in (Done b, w)
  | WindowAttachDetach => let '(b, w) := detach w in (Done b, w)
  | WindowAttachFollowFocused enable =>
      if negb (isEnabled w) then (Rejected Messages.requiresX11, w)
      else let '(b, w) := followFocused enable w in (Done b, w)
  | WindowAttachState => (State (getState w), w)
  end.

(** ** Printing numbers

    [String(n)] for an integer [n]: decimal digits, a minus sign for a
    negative number (exact below 10^21).  [toRadix] gives digits in another
    radix, as [wmctrl] prints window ids in hexadecimal. *)

Fixpoint digitsFuel (fuel : nat) (radix n : N) (acc : list N) : list N :=
  match fuel with
  | O => acc
  | S fuel =>
      let acc := (n mod radix)%N :: acc in
      if (n <? radix)%N then acc else digitsFuel fuel radix (n / radix)%N acc
  end.

(** The digits of [n], most significant first. *)
Definition digitsOf (radix n : N) : list N :=
  digitsFuel (S (N.to_nat (N.log2 n))) radix n [].

Definition digitChar (d : N) : N := (if d <? 10 then 48 + d else 87 + d)%N.

Definition toRadix (radix n : N) : Str := map digitChar (digitsOf radix n).

Definition numberToString (z : Z) : Str :=
  (if z <? 0 then [45%N] else []) ++ toRadix 10 (Z.abs_N z).

Definition allSpace (s : Str) : bool := forallb isSpace s.

(** A string that neither starts nor ends with white space. *)
Definition tight (s : Str) : Prop :=
  match s with c :: _ => isSpace c = false | [] => True end
  ∧ match rev s with c :: _ => isSpace c = false | [] => True end.

(** An output of [xdotool] that does not start, after white space, with a
    sign or a decimal digit. *)
Definition notANumber (s : Str) : Prop :=
  match trimStart s with
  | c :: _ => isDigit c = false ∧ c ≠ 45%N ∧ c ≠ 43%N
  | [] => True
  end.

(** ** The output of xwininfo *)

(** [lines.join("\n")] *)
Definition joinLines (ls : list Str) : Str :=
  match ls with
  | [] => []
  | l :: ls => l ++ flat_map (λ l, 10%N :: l) ls
  end.

(** A line that [getGeometry] passes over: trimmed, it starts with none of
    the five keys. *)
Definition ignoredLine (line : Str) : Prop :=
  let lx := trim line in
  startsWith Keys.absX lx = false ∧ startsWith Keys.absY lx = false
  ∧ startsWith Keys.width lx = false ∧ startsWith Keys.height lx = false
  ∧ startsWith Keys.mapState lx = false.

(** The five lines of [xwininfo] that describe a geometry, as it prints
    them. *)
Module Xwininfo.
Import String.
Definition labelX : Str := lit "  Absolute upper-left X:  ".
Definition labelY : Str := lit "  Absolute upper-left Y:  ".
Definition labelWidth : Str := lit "  Width: ".
Definition labelHeight : Str := lit "  Height: ".
Definition viewable : Str := lit "  Map State: IsViewable".
Definition unmapped : Str := lit "  Map State: IsUnMapped".
Definition lines (g : X11Geometry) : list Str :=
  [ labelX ++ numberToString (x (geom g));
    labelY ++ numberToString (y (geom g));
    labelWidth ++ numberToString (width (geom g));
    labelHeight ++ numberToString (height (geom g));
    if mapped g then viewable else unmapped ].
End Xwininfo.

(** Sample outputs. *)
Module Samples.
Import String.
Definition onlyHeight : Str := lit "Height: 600".
Definition negativeWidth : Str := lit "  Width: -800".
Definition windowLine : Str :=
  lit "0x0460000a  0 myhost Firefox.Firefox  Some window title".
Definition host : Str := lit "myhost".
Definition class : Str := lit "Firefox.Firefox".
Definition title : Str := lit "Some window title".
(** What [xwininfo -id] prints for a window at (100, 100) of size
    800 x 600 on a screen of 1920 x 1080. *)
Definition report : Str :=
  joinLines
    [ [];
      lit "xwininfo: Window id: 0x460000a (has no name)";
      [];
      lit "  Absolute upper-left X:  100";
      lit "  Absolute upper-left Y:  100";
      lit "  Relative upper-left X:  0";
      lit "  Relative upper-left Y:  0";
      lit "  Width: 800";
      lit "  Height: 600";
      lit "  Depth: 24";
      lit "  Visual: 0x21";
      lit "  Visual Class: TrueColor";
      lit "  Border width: 0";
      lit "  Class: InputOutput";
      lit "  Colormap: 0x20 (installed)";
      lit "  Bit Gravity State: NorthWestGravity";
      lit "  Window Gravity State: NorthWestGravity";
      lit "  Backing Store State: NotUseful";
      lit "  Save Under State: no";
      lit "  Map State: IsViewable";
      lit "  Override Redirect State: no";
      lit "  Corners:  +100+100  -1020+100  -1020-380  +100-380";
      lit "  -geometry 800x600+100+100";
      [];
      [] ].
End Samples.

(** ** The output of wmctrl -l -x

    A line has five columns: the id in hexadecimal after [0x], padded with
    zeros, two columns without white space, the class, and the title, with
    white space between them. *)

(** White space between two columns. *)
Definition gap (s : Str) : Prop := s ≠ [] ∧ allSpace s = true.

(** A column without white space. *)
Definition column (s : Str) : Prop := s ≠ [] ∧ forallb notSpace s = true.

Module Wmctrl.
Definition hexId (zeros : nat) (n : N) : Str :=
  48%N :: 120%N :: replicate zeros 48%N ++ toRadix 16 n.
Definition line (zeros : nat) (n : N) (s1 c2 s2 c3 s3 cls s4 title : Str)
  : Str :=
  hexId zeros n ++ s1 ++ c2 ++ s2 ++ c3 ++ s3 ++ cls ++ s4 ++ title.
End Wmctrl.
(** * Properties *)

(** ** The geometry watcher *)

Lemma geometry_differs_spec (a b : Geometry) :
  geometry_differs a b = true ↔
  x a ≠ x b ∨ y a ≠ y b ∨ width a ≠ width b ∨ height a ≠ height b.
Proof.
  unfold geometry_differs.
  rewrite !orb_true_iff, !negb_true_iff, !Z.eqb_neq. tauto.
Qed.

Lemma geometry_differs_refl (a : Geometry) : geometry_differs a a = false.
Proof. unfold geometry_differs. by rewrite !Z.eqb_refl. Qed.

Lemma geometry_differs_false (a b : Geometry) :
  geometry_differs a b = false ↔ a = b.
Proof.
  split.
  - unfold geometry_differs. rewrite !orb_false_iff, !negb_false_iff, !Z.eqb_eq.
    destruct a, b; simpl. intros [[[-> ->] ->] ->]. done.
  - intros ->. apply geometry_differs_refl.
Qed.

Lemma watch_changed_spec (last : option X11Geometry) (g : X11Geometry) :
  watch_changed last g = true ↔
  last = None ∨ ∃ l, last = Some l ∧ differs_from l g.
Proof.
  unfold watch_changed, differs_from. destruct last as [l|].
  - rewrite orb_true_iff, geometry_differs_spec. split.
    + intros H. right. exists l. split; [done|].
      destruct H as [H|H]; [tauto|].
      do 4 right. by destruct (mapped g), (mapped l).
    + intros [?|(l' & [= <-] & H)]; [done|].
      destruct (decide (mapped g = mapped l)) as [E|E].
      * left. tauto.
      * right. by destruct (mapped g), (mapped l).
  - split; [by left | done].
Qed.

Lemma watch_changed_same (g : X11Geometry) : watch_changed (Some g) g = false.
Proof.
  unfold watch_changed. rewrite geometry_differs_refl. by destruct (mapped g).
Qed.

Lemma watchGeometry_run_quiet (om : bool) (last : option X11Geometry)
    (g : X11Geometry) (n : nat) :
  watch_changed last g = false →
  watchGeometry_run om last (repeat (Some g) n) = (last, []).
Proof.
  intros H. induction n as [|n IH]; [done|].
  simpl. rewrite H. simpl in IH. by rewrite IH.
Qed.

(** C3. A tick of [watchGeometry] invokes [onChange] exactly when the poll is
    non-null and either nothing was emitted before or some field among x, y,
    width, height, mapped differs from the previous emission, and then the
    polled value becomes the previous emission; a null poll invokes
    [onMissing] (when the handler was supplied) and keeps the previous
    emission; any number of consecutive ticks that observe the same geometry
    invoke [onChange] at most once. *)
Theorem watchGeometry_edge_triggered (hasOnMissing : bool)
    (last : option X11Geometry) :
  (∀ r c, (watchGeometry_tick hasOnMissing last r).2 = Some (OnChange c) ↔
          r = Some c ∧ (last = None ∨ ∃ l, last = Some l ∧ differs_from l c))
  ∧ (∀ g, watch_changed last g = true →
          (watchGeometry_tick hasOnMissing last (Some g)).1 = Some g)
  ∧ (∀ g, watch_changed last g = false →
          watchGeometry_tick hasOnMissing last (Some g) = (last, None))
  ∧ watchGeometry_tick hasOnMissing last None
    = (last, if hasOnMissing then Some OnMissing else None)
  ∧ (∀ g n, (count_OnChange
               (watchGeometry_run hasOnMissing last (repeat (Some g) n)).2
             ≤ 1)%nat).
Proof.
  split; [intros r c; split|split; [|split; [|split]]].
  - unfold watchGeometry_tick. destruct r as [g|].
    + destruct (watch_changed last g) eqn:E; simpl; [|done].
      intros [= <-]. split; [done|]. by apply watch_changed_spec.
    + by destruct hasOnMissing.
  - intros [-> H]. apply watch_changed_spec in H.
    unfold watchGeometry_tick. by rewrite H.
  - intros g H. unfold watchGeometry_tick. by rewrite H.
  - intros g H. unfold watchGeometry_tick. by rewrite H.
  - done.
  - intros g n. unfold count_OnChange. destruct n as [|n]; [simpl; lia|].
    simpl. destruct (watch_changed last g) eqn:E.
    + rewrite (watchGeometry_run_quiet _ _ g n (watch_changed_same g)).
      simpl. lia.
    + rewrite (watchGeometry_run_quiet _ _ g n E).
      simpl. lia.
Qed.

Lemma watchGeometry_edge_triggered_witness :
  (watchGeometry_tick true None (Some g1)).1 = Some g1
  ∧ watchGeometry_tick true (Some g1) (Some g1) = (Some g1, None).
Proof.
  destruct (watchGeometry_edge_triggered true None) as (_ & H1 & _).
  destruct (watchGeometry_edge_triggered true (Some g1)) as (_ & _ & H2 & _).
  split; [exact (H1 g1 eq_refl) | exact (H2 g1 eq_refl)].
Defined.

(** ** Visibility of the overlay *)

(** Proofs about the handlers first take the world apart, so that every
    projection computes, and evaluate the handler case by case. *)
Ltac open_world w :=
  destruct w as [en pr pm st sw sf sv pb lm la ov pd ts nt wl fl ps tr].

Ltac open_window :=
  match goal with
  | ov : option BrowserWindow |- _ => destruct ov as [[b v]|]
  end.

Ltac evaluate :=
  lazy -[geometry_differs];
  repeat match goal with
         | H : geometry_differs _ _ = _ |- _ => rewrite H
         end;
  lazy -[geometry_differs].

Lemma onChange_flags (g : X11Geometry) (w : World) :
  lastMapped (onChange g w) = mapped g ∧ lastActive (onChange g w) = lastActive w.
Proof.
  open_world w. destruct g as [gg gm]. open_window; [|by evaluate].
  destruct (geometry_differs b gg) eqn:Hd; destruct v, gm, la; by evaluate.
Qed.

Lemma onChange_overlay (g : X11Geometry) (w : World) (win : BrowserWindow) :
  overlay w = Some win →
  ∃ win', overlay (onChange g w) = Some win'
          ∧ visible win' = mapped g && lastActive w.
Proof.
  open_world w. destruct g as [gg gm]. simpl. intros ->. destruct win as [b v].
  destruct (geometry_differs b gg) eqn:Hd; destruct v, gm, la; evaluate; eauto.
Qed.

Lemma visibility_resume_flags (windowId : Z) (active : option Z) (w : World) :
  lastMapped (visibility_resume windowId active w) = lastMapped w
  ∧ lastActive (visibility_resume windowId active w)
    = bool_decide (active = Some windowId).
Proof.
  unfold visibility_resume. generalize (bool_decide (active = Some windowId)).
  intros f. open_world w. open_window; [|by evaluate].
  destruct v, lm, f; by evaluate.
Qed.

Lemma visibility_resume_overlay (windowId : Z) (active : option Z) (w : World)
    (win : BrowserWindow) :
  overlay w = Some win →
  ∃ win', overlay (visibility_resume windowId active w) = Some win'
          ∧ visible win' = lastMapped w && bool_decide (active = Some windowId).
Proof.
  unfold visibility_resume. generalize (bool_decide (active = Some windowId)).
  intros f. open_world w. simpl. intros ->. destruct win as [b v].
  destruct v, lm, f; evaluate; eauto.
Qed.

Lemma isVisible_overlay (w : World) (win : BrowserWindow) :
  overlay w = Some win → isVisible w = visible win.
Proof. unfold isVisible. by intros ->. Qed.

(** C2. With an overlay window present, once the geometry-change handler
    (reporting [mapped g]) and the focus-poll handler (reporting whether the
    active window is the target) have both run, in either order, the overlay
    is visible iff the target is mapped and focused; a further
    geometry-change or focus-poll update that changes one flag while the
    other is held leaves the overlay visible iff the new conjunction holds,
    so its visibility changes exactly when the conjunction changes. *)
Theorem visibility_truth_table (w : World) (win : BrowserWindow)
    (windowId : Z) (g : X11Geometry) (active : option Z) :
  overlay w = Some win →
  let focused := bool_decide (active = Some windowId) in
  let w1 := visibility_resume windowId active (onChange g w) in
  let w2 := onChange g (visibility_resume windowId active w) in
  isVisible w1 = mapped g && focused
  ∧ isVisible w2 = mapped g && focused
  ∧ (∀ g', isVisible (onChange g' w1) = mapped g' && focused
           ∧ (isVisible (onChange g' w1) ≠ isVisible w1
              ↔ mapped g' && focused ≠ mapped g && focused))
  ∧ (∀ active',
       let focused' := bool_decide (active' = Some windowId) in
       isVisible (visibility_resume windowId active' w1) = mapped g && focused'
       ∧ (isVisible (visibility_resume windowId active' w1) ≠ isVisible w1
          ↔ mapped g && focused' ≠ mapped g && focused)).
Proof.
  intros Hov focused w1 w2.
  destruct (onChange_overlay g w win Hov) as (wa & Ha & _).
  destruct (visibility_resume_overlay windowId active _ wa Ha) as (w1' & H1 & V1).
  destruct (onChange_flags g w) as [Fm Fa]. rewrite Fm in V1.
  destruct (visibility_resume_overlay windowId active w win Hov) as (wb & Hb & _).
  destruct (onChange_overlay g _ wb Hb) as (w2' & H2 & V2).
  destruct (visibility_resume_flags windowId active w) as [Gm Ga]. rewrite Ga in V2.
  destruct (visibility_resume_flags windowId active (onChange g w)) as [Km Ka].
  fold w1 in H1, Km, Ka. fold w2 in H2. rewrite Fm in Km.
  assert (E1 : isVisible w1 = mapped g && focused)
    by (by rewrite (isVisible_overlay _ _ H1)).
  split; [done|]. split; [by rewrite (isVisible_overlay _ _ H2)|]. split.
  - intros g'. destruct (onChange_overlay g' w1 w1' H1) as (w3 & H3 & V3).
    rewrite Ka in V3. rewrite (isVisible_overlay _ _ H3), E1, V3. done.
  - intros active' focused'.
    destruct (visibility_resume_overlay windowId active' w1 w1' H1) as (w3 & H3 & V3).
    rewrite Km in V3. rewrite (isVisible_overlay _ _ H3), E1, V3. done.
Qed.

Lemma visibility_truth_table_witness :
  isVisible (visibility_resume 7 (Some 7) (onChange g1 world0)) = true.
Proof.
  exact (proj1 (visibility_truth_table world0
                  {| bounds := rect 0 0 1920 1080; visible := true |}
                  7 g1 (Some 7) eq_refl)).
Defined.


(** ** Closed forms of the operations *)

Lemma stopAll_eq (w : World) :
  stopAll w =
  set_stops None None None
    (set_loop (cancel (stopVisibilityWatch w)
                 (cancel (stopFollow w) (cancel (stopWatch w) (timers w))))
              (nextTimer w) (watchLast w) (followLast w) (inflight w) w).
Proof. open_world w. by destruct sw, sf, sv. Qed.

Lemma restoreOverlayBounds_eq (w : World) (win : BrowserWindow) :
  overlay w = Some win →
  restoreOverlayBounds w =
  let w' := assert_attributes (setBounds (restore_target w) w) in
  if visible win then w' else showInactive w'.
Proof.
  open_world w. simpl. intros ->. destruct win as [b v].
  destruct pb, v; by evaluate.
Qed.

Lemma detach_enabled (w : World) :
  isEnabled w = true →
  detach w = (true, restoreOverlayBounds (set_state detached_state (stopAll w))).
Proof. intros H. unfold detach. by rewrite H. Qed.

Lemma detach_disabled (w : World) :
  isEnabled w = false → detach w = (true, set_state detached_state w).
Proof. intros H. unfold detach. by rewrite H. Qed.

Lemma set_state_same (w : World) : set_state (state w) w = w.
Proof. by destruct w. Qed.

(** ** followFocused(false) and detach() *)

(** With the provider disabled the two calls return different results. *)
Lemma followFocused_false_disabled_differs :
  isEnabled world_disabled = false
  ∧ (followFocused false world_disabled).1 = false
  ∧ (detach world_disabled).1 = true.
Proof. done. Qed.

(** ** Frame lemmas for the overlay handlers *)

Lemma same_control_refl (w : World) : same_control w w.
Proof. by repeat split. Qed.

Lemma same_control_trans (a b c : World) :
  same_control a b → same_control b c → same_control a c.
Proof. unfold same_control. intuition congruence. Qed.

Lemma applyOverlayBounds_control (g : Geometry) (m : bool) (w : World) :
  same_control w (applyOverlayBounds g m w).
Proof.
  open_world w. open_window; [|by evaluate].
  destruct (geometry_differs b g) eqn:Hd; destruct m, v; by evaluate.
Qed.

Lemma syncOverlayVisibility_control (w : World) :
  same_control w (syncOverlayVisibility w).
Proof.
  open_world w. open_window; [|by evaluate]. destruct v, lm, la; by evaluate.
Qed.

Lemma restoreOverlayBounds_control (w : World) :
  same_control w (restoreOverlayBounds w)
  ∧ state (restoreOverlayBounds w) = state w.
Proof.
  open_world w. open_window; [|by evaluate]. destruct v, pb; by evaluate.
Qed.

Lemma onChange_control (g : X11Geometry) (w : World) :
  same_control w (onChange g w)
  ∧ lastGeometry (state (onChange g w)) = Some (geom g).
Proof.
  open_world w. destruct g as [gg gm]. open_window; [|by evaluate].
  destruct (geometry_differs b gg) eqn:Hd; destruct v, gm, la; by evaluate.
Qed.

Lemma onMissing_control (w : World) :
  same_control w (onMissing w) ∧ state (onMissing w) = state w.
Proof. open_world w. open_window; [destruct v|]; by evaluate. Qed.

Lemma visibility_resume_control (windowId : Z) (active : option Z) (w : World) :
  same_control w (visibility_resume windowId active w)
  ∧ state (visibility_resume windowId active w) = state w.
Proof.
  unfold visibility_resume. generalize (bool_decide (active = Some windowId)).
  intros f. open_world w. open_window; [|by evaluate].
  destruct v, lm, f; by evaluate.
Qed.

(** ** Timers and their owners *)

(** Evaluation of the record plumbing only: maps and arithmetic stay as they
    are written. *)
Ltac wlazy :=
  lazy beta iota zeta delta
    [enabled provider pollMs state stopWatch stopFollow stopVisibilityWatch
     preAttachBounds lastMapped lastActive overlay primaryDisplay timers
     nextTimer watchLast followLast inflight trace
     mode targetId lastGeometry bounds visible geom mapped
     set_state set_stops set_preAttachBounds set_flags window_call
     record_effect set_loop isVisible hide showInactive setBounds
     assert_attributes setInterval clearInterval start_poll watchGeometry
     stopAll cancel attach_prepared isEnabled detached_state resolve
     is_detached
     fst snd negb andb orb fmap option_fmap option_map default from_option].

Tactic Notation "wlazy" "in" hyp(H) :=
  lazy beta iota zeta delta
    [enabled provider pollMs state stopWatch stopFollow stopVisibilityWatch
     preAttachBounds lastMapped lastActive overlay primaryDisplay timers
     nextTimer watchLast followLast inflight trace
     mode targetId lastGeometry bounds visible geom mapped
     set_state set_stops set_preAttachBounds set_flags window_call
     record_effect set_loop isVisible hide showInactive setBounds
     assert_attributes setInterval clearInterval start_poll watchGeometry
     stopAll cancel attach_prepared isEnabled detached_state resolve
     is_detached
     fst snd negb andb orb fmap option_fmap option_map default from_option] in H.

Lemma lookup_cancel (s : option nat) (m : gmap nat Interval) (t : nat) :
  cancel s m !! t = if decide (s = Some t) then None else m !! t.
Proof.
  destruct s as [u|]; simpl.
  - rewrite lookup_delete. repeat case_decide; congruence.
  - by destruct (decide (None = Some t)).
Qed.

Lemma stopAll_timers (w : World) :
  timers (stopAll w)
  = cancel (stopVisibilityWatch w)
      (cancel (stopFollow w) (cancel (stopWatch w) (timers w))).
Proof. by rewrite stopAll_eq. Qed.

Lemma stopAll_timers_empty (w : World) :
  timers_owned w → timers (stopAll w) = ∅.
Proof.
  intros H. rewrite stopAll_timers. apply map_eq. intros t.
  rewrite lookup_empty, !lookup_cancel. repeat case_decide; try done.
  destruct (timers w !! t) eqn:E; [|done].
  destruct (H t) as [?|[?|?]]; [eauto|congruence..].
Qed.

Lemma attach_eq (windowId : Z) (w : World) (win : BrowserWindow) :
  isEnabled w = true → overlay w = Some win →
  attach windowId w =
  (true,
   let w1 := attach_prepared win w in
   let n := nextTimer w1 in
   set_stops (Some n) None (Some (S n))
     (set_loop (<[S n := VisibilityInterval windowId]>
                  (<[n := GeometryInterval windowId]> (timers w1)))
               (S (S n)) (delete n (watchLast w1)) (followLast w1) (inflight w1)
        (set_state {| mode := attached; targetId := Some windowId;
                      lastGeometry := None |} w1))).
Proof.
  intros He Ho. unfold attach. rewrite He, Ho. clear He Ho.
  open_world w. destruct st as [md ti lg].
  destruct md, sw, sf, sv; wlazy; reflexivity.
Qed.

Lemma attach_refused (windowId : Z) (w : World) :
  isEnabled w = false ∨ overlay w = None → attach windowId w = (false, w).
Proof.
  unfold attach. intros [->| ->]; [done|]. by destruct (isEnabled w).
Qed.

Lemma attach_prepared_fields (win : BrowserWindow) (w : World) :
  enabled (attach_prepared win w) = enabled w
  ∧ provider (attach_prepared win w) = provider w
  ∧ overlay (attach_prepared win w) = overlay w
  ∧ trace (attach_prepared win w) = trace w
  ∧ inflight (attach_prepared win w) = inflight w
  ∧ nextTimer (attach_prepared win w) = nextTimer w
  ∧ followLast (attach_prepared win w) = followLast w
  ∧ watchLast (attach_prepared win w) = watchLast w
  ∧ lastMapped (attach_prepared win w) = lastMapped w
  ∧ lastActive (attach_prepared win w) = lastActive w
  ∧ primaryDisplay (attach_prepared win w) = primaryDisplay w
  ∧ preAttachBounds (attach_prepared win w)
    = (if is_detached (mode (state w)) then Some (bounds win)
       else preAttachBounds w)
  ∧ (timers_owned w → timers (attach_prepared win w) = ∅).
Proof.
  unfold attach_prepared.
  destruct (is_detached (mode (state w))).
  - repeat split; try (rewrite stopAll_eq; reflexivity).
    intros H. by apply stopAll_timers_empty.
  - repeat split; try (rewrite stopAll_eq; reflexivity).
    intros H. by apply stopAll_timers_empty.
Qed.

Lemma attach_enabled (windowId : Z) (w : World) :
  enabled (attach windowId w).2 = enabled w
  ∧ provider (attach windowId w).2 = provider w.
Proof.
  destruct (isEnabled w) eqn:He; [|by rewrite attach_refused; [|left]].
  destruct (overlay w) as [win|] eqn:Ho; [|by rewrite attach_refused; [|right]].
  rewrite (attach_eq _ _ win He Ho).
  destruct (attach_prepared_fields win w) as (H1 & H2 & _).
  revert H1 H2. generalize (attach_prepared win w). intros u <- <-.
  by simpl.
Qed.

Lemma attach_timers_owned (windowId : Z) (w : World) :
  timers_owned w → timers_owned (attach windowId w).2.
Proof.
  intros H.
  destruct (isEnabled w) eqn:He; [|by rewrite attach_refused; [|left]].
  destruct (overlay w) as [win|] eqn:Ho; [|by rewrite attach_refused; [|right]].
  rewrite (attach_eq _ _ win He Ho).
  destruct (attach_prepared_fields win w) as (_&_&_&_&_&_&_&_&_&_&_&_&Ht).
  specialize (Ht H). revert Ht. generalize (attach_prepared win w).
  intros u Hu t. open_world u. wlazy in Hu. subst ts. wlazy.
  rewrite !lookup_insert. repeat case_decide; subst; eauto.
  rewrite lookup_empty. by intros [? ?].
Qed.

Lemma followFocused_false_enabled (w : World) :
  isEnabled w = true →
  followFocused false w
  = (true, restoreOverlayBounds (set_state detached_state (stopAll w))).
Proof. intros H. unfold followFocused. by rewrite H. Qed.

Lemma followFocused_true_enabled (w : World) :
  isEnabled w = true →
  followFocused true w =
  (true,
   let w1 := stopAll w in
   let n := nextTimer w1 in
   set_stops None (Some n) None
     (set_loop (<[n := FollowInterval]> (timers w1)) (S n) (watchLast w1)
               (delete n (followLast w1)) (inflight w1 ++ [FollowPoll n])
        (set_state {| mode := follow; targetId := None; lastGeometry := None |}
           w1))).
Proof.
  intros H. unfold followFocused. rewrite H. clear H.
  open_world w. destruct sw, sf, sv; wlazy; reflexivity.
Qed.

Lemma followFocused_disabled (enable : bool) (w : World) :
  isEnabled w = false → followFocused enable w = (false, w).
Proof. intros H. unfold followFocused. by rewrite H. Qed.

Lemma timers_owned_control (w w' : World) :
  same_control w w' → timers_owned w → timers_owned w'.
Proof.
  unfold same_control, timers_owned.
  intros (_&_&Ht&_&_&_&_&H1&H2&H3&_) H t. rewrite Ht, H1, H2, H3. apply H.
Qed.

Lemma timers_owned_empty (w : World) : timers w = ∅ → timers_owned w.
Proof. intros H t. rewrite H, lookup_empty. by intros [? ?]. Qed.

(** Projections of the setters, for worlds that are not taken apart. *)
Ltac wcbn :=
  cbn [enabled provider pollMs state stopWatch stopFollow stopVisibilityWatch
       preAttachBounds lastMapped lastActive overlay primaryDisplay timers
       nextTimer watchLast followLast inflight trace
       mode targetId lastGeometry
       set_state set_stops set_preAttachBounds set_flags window_call
       record_effect set_loop clearInterval start_poll resolve fst snd] in *.

Lemma detach_timers_empty (w : World) :
  wf w → timers (detach w).2 = ∅.
Proof.
  intros [Ho Hi]. destruct (isEnabled w) eqn:He.
  - rewrite (detach_enabled w He). unfold snd.
    destruct (restoreOverlayBounds_control (set_state detached_state (stopAll w)))
      as [(_&_&->&_) _].
    wcbn. by apply stopAll_timers_empty.
  - rewrite (detach_disabled w He). wcbn. by apply Hi.
Qed.

Lemma stopAll_enabled (w : World) :
  enabled (stopAll w) = enabled w ∧ provider (stopAll w) = provider w.
Proof. by rewrite stopAll_eq. Qed.

Lemma geometry_resume_frame (t : nat) (r : option X11Geometry) (w : World) :
  let w' := geometry_resume t r w in
  enabled w' = enabled w ∧ provider w' = provider w
  ∧ timers w' = timers w ∧ nextTimer w' = nextTimer w
  ∧ followLast w' = followLast w ∧ inflight w' = inflight w
  ∧ stopWatch w' = stopWatch w ∧ stopFollow w' = stopFollow w
  ∧ stopVisibilityWatch w' = stopVisibilityWatch w
  ∧ preAttachBounds w' = preAttachBounds w
  ∧ primaryDisplay w' = primaryDisplay w
  ∧ mode (state w') = mode (state w)
  ∧ targetId (state w') = targetId (state w)
  ∧ has_overlay w' = has_overlay w.
Proof.
  unfold geometry_resume.
  destruct (watchGeometry_tick _ _ _) as [l [[g|]|]]; cbv zeta.
  - match goal with |- context [onChange g ?u] =>
      destruct (onChange_control g u) as [H _] end.
    unfold same_control in H. wcbn. intuition congruence.
  - match goal with |- context [onMissing ?u] =>
      destruct (onMissing_control u) as [H _] end.
    unfold same_control in H. wcbn. intuition congruence.
  - wcbn. by repeat split.
Qed.

Lemma follow_resume_cases (closure : nat) (active : option Z) (w : World) :
  follow_resume closure active w = w
  ∨ ∃ id, active = Some id ∧ id ≠ 0 ∧ followLast w !! closure ≠ Some id
      ∧ follow_resume closure active w
        = let u := (attach id
                      (set_loop (timers w) (nextTimer w) (watchLast w)
                         (<[closure := id]> (followLast w)) (inflight w) w)).2 in
          set_state {| mode := follow; targetId := targetId (state u);
                       lastGeometry := lastGeometry (state u) |} u.
Proof.
  unfold follow_resume. destruct active as [id|]; [|by left].
  destruct (id =? 0) eqn:E0; [by left|]. apply Z.eqb_neq in E0.
  case_decide as Hl; [by left|]. right. exists id. repeat split; try done.
  by destruct (attach id _).
Qed.

Lemma step_isEnabled (e : Event) (w : World) :
  enabled (step e w) = enabled w ∧ provider (step e w) = provider w.
Proof.
  destruct e; unfold step.
  - apply attach_enabled.
  - destruct (isEnabled w) eqn:He.
    + rewrite (detach_enabled w He). unfold snd.
      destruct (restoreOverlayBounds_control (set_state detached_state (stopAll w)))
        as [(->&->&_) _]. wcbn. apply stopAll_enabled.
    + by rewrite (detach_disabled w He).
  - destruct (isEnabled w) eqn:He; [|by rewrite followFocused_disabled].
    destruct enable.
    + rewrite (followFocused_true_enabled w He). wcbn. apply stopAll_enabled.
    + rewrite (followFocused_false_enabled w He). unfold snd.
      destruct (restoreOverlayBounds_control (set_state detached_state (stopAll w)))
        as [(->&->&_) _]. wcbn. apply stopAll_enabled.
  - unfold timer_fires. by destruct (timers w !! t) as [[]|].
  - case_decide; [|done].
    destruct (geometry_resume_frame watcher r
                (resolve (GeometryPoll watcher windowId) w)) as (->&->&_).
    done.
  - case_decide; [|done].
    by destruct (visibility_resume_control windowId active
                   (resolve (VisibilityPoll windowId) w)) as [(->&->&_) _].
  - case_decide; [|done].
    destruct (follow_resume_cases closure active
                (resolve (FollowPoll closure) w)) as [->|(id&_&_&_&->)]; [done|].
    cbv zeta. wcbn.
    match goal with |- context [attach id ?u] =>
      destruct (attach_enabled id u) as [-> ->] end.
    done.
Qed.

(** ** Well-formed worlds *)

Lemma wf_new ov display optPollMs optEnabled x11 :
  wf (WindowAttachService_new ov display optPollMs optEnabled x11).
Proof. split; [by apply timers_owned_empty|]. by intros _. Qed.

Lemma elem_of_nil_inflight (p : Poll) (w : World) :
  inflight w = [] → p ∈ inflight w → False.
Proof. intros ->. apply not_elem_of_nil. Qed.

Lemma step_timers_owned (e : Event) (w : World) :
  wf w → timers_owned (step e w).
Proof.
  intros Hwf. pose proof Hwf as [Ho Hi]. destruct e; unfold step.
  - by apply attach_timers_owned.
  - apply timers_owned_empty. by apply detach_timers_empty.
  - destruct (isEnabled w) eqn:He; [|by rewrite followFocused_disabled].
    destruct enable.
    + rewrite (followFocused_true_enabled w He). unfold snd. cbv zeta.
      pose proof (stopAll_timers_empty w Ho) as Hs. revert Hs.
      generalize (stopAll w). intros u Hu t. wcbn. rewrite Hu.
      rewrite lookup_insert. case_decide; subst; eauto.
      rewrite lookup_empty. by intros [? ?].
    + rewrite (followFocused_false_enabled w He), <- (detach_enabled w He).
      apply timers_owned_empty. by apply detach_timers_empty.
  - unfold timer_fires. by destruct (timers w !! t) as [[]|].
  - case_decide; [|done].
    destruct (geometry_resume_frame watcher r
                (resolve (GeometryPoll watcher windowId) w))
      as (_&_&Ht&_&_&_&H1&H2&H3&_).
    intros t. rewrite Ht, H1, H2, H3. apply Ho.
  - case_decide; [|done].
    destruct (visibility_resume_control windowId active
                (resolve (VisibilityPoll windowId) w)) as [Hc _].
    by apply (timers_owned_control _ _ Hc).
  - case_decide; [|done].
    destruct (follow_resume_cases closure active
                (resolve (FollowPoll closure) w)) as [->|(id&_&_&_&->)]; [done|].
    cbv zeta.
    match goal with |- context [attach id ?u] =>
      assert (Ha : timers_owned (attach id u).2)
        by (by apply attach_timers_owned);
      revert Ha; generalize (attach id u).2 end.
    intros u Hu t. apply Hu.
Qed.

Lemma wf_step (e : Event) (w : World) : wf w → wf (step e w).
Proof.
  intros Hwf. split; [by apply step_timers_owned|].
  destruct Hwf as [Ho Hi].
  intros He. destruct (step_isEnabled e w) as [E1 E2].
  unfold isEnabled in He. rewrite E1, E2 in He. fold (isEnabled w) in He.
  destruct (Hi He) as (Ht & Hp & Hs).
  destruct e; unfold step.
  - rewrite attach_refused; [done|by left].
  - by rewrite (detach_disabled w He).
  - by rewrite (followFocused_disabled _ w He).
  - unfold timer_fires. by rewrite Ht, lookup_empty.
  - case_decide as Hin; [|done]. by destruct (elem_of_nil_inflight _ _ Hp Hin).
  - case_decide as Hin; [|done]. by destruct (elem_of_nil_inflight _ _ Hp Hin).
  - case_decide as Hin; [|done]. by destruct (elem_of_nil_inflight _ _ Hp Hin).
Qed.

Lemma wf_run (es : list Event) (w : World) : wf w → wf (run es w).
Proof.
  revert w. induction es as [|e es IH]; intros w H; [done|].
  simpl. apply IH. by apply wf_step.
Qed.

Lemma reachable_wf (w : World) : reachable w → wf w.
Proof.
  intros (ov & d & p & en & x11 & es & ->). apply wf_run, wf_new.
Qed.

Lemma run_app (es es' : list Event) (w : World) :
  run (es ++ es') w = run es' (run es w).
Proof. revert w. induction es as [|a es IH]; intros w; [done|]. apply IH. Qed.

Lemma reachable_run (es : list Event) (w : World) :
  reachable w → reachable (run es w).
Proof.
  intros (ov & d & p & en & x11 & es0 & ->).
  exists ov, d, p, en, x11, (es0 ++ es). by rewrite run_app.
Qed.

(** C5. From every reachable state of the engine, [followFocused(false)] and
    [detach()] leave the same world behind: the same [AttachState], the same
    overlay and the same writes.  [detach()] always returns [true];
    [followFocused(false)] returns [true] when the provider is enabled and
    [false] when it is not. *)
Theorem followFocused_false_vs_detach (w : World) :
  reachable w →
  (followFocused false w).2 = (detach w).2
  ∧ (detach w).1 = true
  ∧ (followFocused false w).1 = isEnabled w.
Proof.
  intros Hr. destruct (reachable_wf w Hr) as [_ Hi].
  destruct (isEnabled w) eqn:He.
  - by rewrite (followFocused_false_enabled w He), (detach_enabled w He).
  - rewrite (followFocused_disabled _ w He), (detach_disabled w He).
    unfold fst, snd. destruct (Hi He) as (_ & _ & <-).
    by rewrite set_state_same.
Qed.

Lemma followFocused_false_vs_detach_witness :
  (followFocused false world_disabled).2 = (detach world_disabled).2
  ∧ (detach world_disabled).1 = true
  ∧ (followFocused false world_disabled).1 = isEnabled world_disabled.
Proof.
  apply (followFocused_false_vs_detach world_disabled).
  by exists (Some {| bounds := rect 0 0 1920 1080; visible := true |}),
            (rect 0 0 1920 1080), None, (Some false), true, [].
Defined.

(** ** detach() twice *)

(** Two calls of [detach()] in a row write the overlay's bounds twice. *)
Lemma detach_twice_writes_twice :
  bounds_writes world0 = []
  ∧ bounds_writes (detach (detach world0).2).2
    = [SetBounds (rect 0 0 1920 1080); SetBounds (rect 0 0 1920 1080)].
Proof. split; vm_compute; reflexivity. Qed.

(** C7. After a second [detach()] the engine is in the same state as after
    the first: mode [detached], no target, no last geometry, the same
    overlay, the same snapshot.  Each of the two calls returns [true] and,
    when the provider is enabled and the overlay exists, writes the restore
    bounds once; the second call writes the same rectangle again. *)
Theorem detach_twice (w : World) :
  let w1 := (detach w).2 in
  let w2 := (detach w1).2 in
  (detach w).1 = true ∧ (detach w1).1 = true
  ∧ getState w1 = detached_state ∧ getState w2 = detached_state
  ∧ overlay w2 = overlay w1
  ∧ preAttachBounds w2 = preAttachBounds w1
  ∧ bounds_writes w1 = restore_write w ++ bounds_writes w
  ∧ bounds_writes w2 = restore_write w ++ bounds_writes w1.
Proof.
  open_world w.
  destruct en, pr; (open_window; [destruct v, pb|]); destruct sw, sf, sv;
    by evaluate.
Qed.

(** ** Bounds writes of the handlers *)

(** The geometry-change handler writes the bounds of a mapped target that
    is not focused. *)
Lemma bounds_written_while_unfocused :
  mapped g1 && lastActive world0 = false
  ∧ bounds_writes world0 = []
  ∧ bounds_writes (onChange g1 world0) = [SetBounds (geom g1)].
Proof. repeat split. Qed.

(** C8. A focus-poll update and a missing-geometry update never write the
    overlay's bounds.  A geometry-change update writes them exactly when the
    overlay exists, the target is mapped and its geometry differs from the
    overlay's current bounds, whether or not the target is focused, and then
    writes the target's geometry once.  After any of the three updates the
    overlay is not visible unless the target is mapped and focused. *)
Theorem bounds_written_only_when_mapped (w : World) :
  (∀ windowId active,
     let w' := visibility_resume windowId active w in
     bounds_writes w' = bounds_writes w
     ∧ bounds <$> overlay w' = bounds <$> overlay w
     ∧ isVisible w' = isVisible w' && (lastMapped w' && lastActive w'))
  ∧ (bounds_writes (onMissing w) = bounds_writes w
     ∧ bounds <$> overlay (onMissing w) = bounds <$> overlay w
     ∧ isVisible (onMissing w) = false)
  ∧ (∀ g,
       let w' := onChange g w in
       bounds_writes w' = tracking_write g w ++ bounds_writes w
       ∧ isVisible w' = isVisible w' && (mapped g && lastActive w)).
Proof.
  split; [|split].
  - intros windowId active. unfold visibility_resume.
    generalize (bool_decide (active = Some windowId)). intros f.
    open_world w. open_window; [|by evaluate]. destruct v, lm, f; by evaluate.
  - open_world w. open_window; [destruct v|]; by evaluate.
  - intros g. open_world w. destruct g as [gg gm]. open_window; [|by evaluate].
    destruct (geometry_differs b gg) eqn:Hd; destruct v, gm, la; by evaluate.
Qed.

(** ** Follow mode: a tick without an active window *)

Lemma remove_first_absent (p : Poll) (l : list Poll) :
  p ∉ l → remove_first p l = l.
Proof.
  induction l as [|q l IH]; [done|]. intros [Hne Hin]%not_elem_of_cons.
  simpl. case_decide; [done|]. by rewrite IH.
Qed.

(** C10. When the follow tick resumes with [null] or with the id [0] it
    returns at once: as a task of the event loop it only retires the pending
    query; the [AttachState], the live timers, the [stop...] functions, the
    overlay and the trace are what they were. *)
Theorem follow_tick_without_window (closure : nat) (w : World) :
  follow_resume closure None w = w
  ∧ follow_resume closure (Some 0) w = w
  ∧ ∀ id, id = None ∨ id = Some 0 →
      let w' := step (FollowResolves closure id) w in
      state w' = state w ∧ timers w' = timers w
      ∧ stopWatch w' = stopWatch w ∧ stopFollow w' = stopFollow w
      ∧ stopVisibilityWatch w' = stopVisibilityWatch w
      ∧ overlay w' = overlay w ∧ trace w' = trace w
      ∧ watchLast w' = watchLast w ∧ followLast w' = followLast w
      ∧ preAttachBounds w' = preAttachBounds w
      ∧ lastMapped w' = lastMapped w ∧ lastActive w' = lastActive w
      ∧ inflight w' = remove_first (FollowPoll closure) (inflight w).
Proof.
  split; [done|]. split; [done|].
  intros id Hid. unfold step.
  assert (E : ∀ u, follow_resume closure id u = u) by (by destruct Hid as [-> | ->]).
  case_decide as Hin; [by rewrite E|].
  cbv zeta. by rewrite (remove_first_absent _ _ Hin).
Qed.

Lemma follow_tick_without_window_witness :
  state (step (FollowResolves 0 None)
           (run [FollowFocused true] world0))
  = state (run [FollowFocused true] world0).
Proof.
  exact (proj1 (proj2 (proj2 (follow_tick_without_window 0
                                (run [FollowFocused true] world0)))
                  None (or_introl eq_refl))).
Defined.

(** ** The snapshot of the overlay's bounds *)

Lemma attach_frame (windowId : Z) (w : World) :
  let w' := (attach windowId w).2 in
  has_overlay w' = has_overlay w
  ∧ overlay w' = overlay w
  ∧ trace w' = trace w
  ∧ primaryDisplay w' = primaryDisplay w
  ∧ (is_detached (mode (state w)) = false →
     preAttachBounds w' = preAttachBounds w).
Proof.
  cbv zeta.
  destruct (isEnabled w) eqn:He; [|by rewrite attach_refused; [|left]].
  destruct (overlay w) as [win|] eqn:Ho; [|by rewrite attach_refused; [|right]].
  rewrite (attach_eq _ _ win He Ho). unfold snd, has_overlay. cbv zeta.
  rewrite <- Ho.
  destruct (attach_prepared_fields win w) as (_&_&H1&H2&_&_&_&_&_&_&H3&H4&_).
  revert H1 H2 H3 H4. generalize (attach_prepared win w).
  intros u H1 H2 H3 H4. wcbn. rewrite H1, H2, H3, H4.
  repeat split. by intros ->.
Qed.

Lemma attach_state (windowId : Z) (w : World) :
  state (attach windowId w).2 = state w
  ∨ state (attach windowId w).2
    = {| mode := attached; targetId := Some windowId; lastGeometry := None |}.
Proof.
  destruct (isEnabled w) eqn:He; [|by rewrite attach_refused; [left|left]].
  destruct (overlay w) as [win|] eqn:Ho; [|by rewrite attach_refused; [left|right]].
  rewrite (attach_eq _ _ win He Ho). by right.
Qed.

Lemma stopAll_frame (w : World) :
  state (stopAll w) = state w ∧ overlay (stopAll w) = overlay w
  ∧ trace (stopAll w) = trace w
  ∧ preAttachBounds (stopAll w) = preAttachBounds w
  ∧ primaryDisplay (stopAll w) = primaryDisplay w
  ∧ inflight (stopAll w) = inflight w
  ∧ nextTimer (stopAll w) = nextTimer w.
Proof. by rewrite stopAll_eq. Qed.

Lemma holds_snapshot_step (b0 : Rectangle) (e : Event) (w : World) :
  releases e = false → holds_snapshot b0 w → holds_snapshot b0 (step e w).
Proof.
  intros Hrel (Hp & Hm & He & Ho).
  destruct (step_isEnabled e w) as [E1 E2].
  assert (He' : isEnabled (step e w) = true)
    by (unfold isEnabled in *; by rewrite E1, E2).
  unfold holds_snapshot. rewrite He'. clear E1 E2 He'.
  destruct e; unfold step; try discriminate Hrel.
  - destruct (attach_frame windowId w) as (H1&_&_&_&H2).
    destruct (attach_state windowId w) as [-> | ->];
      rewrite H1, (H2 Hm); done.
  - destruct enable; [|discriminate Hrel].
    rewrite (followFocused_true_enabled w He). unfold snd, has_overlay. cbv zeta.
    destruct (stopAll_frame w) as (_&H1&_&H2&_). revert H1 H2.
    generalize (stopAll w). intros u H1 H2. wcbn. rewrite H1, H2.
    fold (has_overlay w). by rewrite Ho, Hp.
  - unfold timer_fires. by destruct (timers w !! t) as [[]|].
  - case_decide; [|done].
    destruct (geometry_resume_frame watcher r
                (resolve (GeometryPoll watcher windowId) w))
      as (_&_&_&_&_&_&_&_&_&->&_&->&_&->).
    done.
  - case_decide; [|done].
    destruct (visibility_resume_control windowId active
                (resolve (VisibilityPoll windowId) w))
      as [(_&_&_&_&_&_&_&_&_&_&->&_&->&_&->&_) _].
    done.
  - case_decide; [|done].
    destruct (follow_resume_cases closure active
                (resolve (FollowPoll closure) w)) as [->|(id&_&_&_&->)]; [done|].
    cbv zeta.
    match goal with |- context [attach id ?u] =>
      destruct (attach_frame id u) as (H1&H3&_&_&H2) end.
    unfold has_overlay in *. wcbn.
    rewrite H3, (H2 Hm). done.
Qed.

Lemma holds_snapshot_run (b0 : Rectangle) (es : list Event) (w : World) :
  Forall (λ e, releases e = false) es →
  holds_snapshot b0 w → holds_snapshot b0 (run es w).
Proof.
  intros H. revert w. induction H as [|e es He _ IH]; intros w Hw; [done|].
  simpl. apply IH. by apply holds_snapshot_step.
Qed.

Lemma detach_restores (w : World) :
  isEnabled w = true → has_overlay w = true →
  bounds <$> overlay (detach w).2 = Some (restore_target w).
Proof.
  open_world w. unfold has_overlay. simpl. intros He Ho.
  destruct en, pr; try discriminate He.
  open_window; [|discriminate Ho].
  destruct v, pb, sw, sf, sv; by evaluate.
Qed.

(** C6. With the provider enabled and an overlay window, [attach] called in
    mode [detached] records the overlay's current bounds, [attach] called in
    mode [attached] or [follow] keeps the recorded snapshot, and [detach]
    sets the overlay's bounds to the snapshot, or to the bounds of the
    primary display when there is none.  After an [attach] from [detached],
    whatever happens before the next release (further [attach] calls,
    [followFocused(true)], timers, polls), [detach] restores the bounds the
    overlay had at that first [attach]. *)
Theorem snapshot_round_trip (w : World) (win : BrowserWindow) (windowId : Z) :
  isEnabled w = true → overlay w = Some win →
  let w1 := (attach windowId w).2 in
  (mode (state w) = detached → preAttachBounds w1 = Some (bounds win))
  ∧ (mode (state w) ≠ detached → preAttachBounds w1 = preAttachBounds w)
  ∧ bounds <$> overlay (detach w).2
    = Some (default (primaryDisplay w) (preAttachBounds w))
  ∧ (mode (state w) = detached →
     ∀ es, Forall (λ e, releases e = false) es →
           bounds <$> overlay (detach (run es w1)).2 = Some (bounds win)).
Proof.
  intros He Ho w1.
  assert (Hov : has_overlay w = true) by (unfold has_overlay; by rewrite Ho).
  assert (E1 : preAttachBounds w1
               = if is_detached (mode (state w)) then Some (bounds win)
                 else preAttachBounds w).
  { unfold w1. rewrite (attach_eq _ _ win He Ho). unfold snd. cbv zeta.
    destruct (attach_prepared_fields win w) as (_&_&_&_&_&_&_&_&_&_&_&H&_).
    revert H. generalize (attach_prepared win w). intros u H. by wcbn. }
  split; [|split; [|split]].
  - intros Hm. by rewrite E1, Hm.
  - intros Hm. rewrite E1. by destruct (mode (state w)).
  - by apply detach_restores.
  - intros Hm es Hes.
    assert (Hs : holds_snapshot (bounds win) w1).
    { destruct (attach_frame windowId w) as (H1&_).
      destruct (attach_enabled windowId w) as (H2&H3).
      repeat split.
      - by rewrite E1, Hm.
      - unfold w1. by rewrite (attach_eq _ _ win He Ho).
      - unfold isEnabled in *. fold w1 in H2, H3. by rewrite H2, H3.
      - fold w1 in H1. by rewrite H1. }
    destruct (holds_snapshot_run _ es w1 Hes Hs) as (Hp & _ & He' & Ho').
    rewrite (detach_restores _ He' Ho'). unfold restore_target.
    by rewrite Hp.
Qed.

Lemma snapshot_round_trip_witness :
  bounds <$> overlay
    (detach (run [TimerFires 0; GeometryResolves 0 7 (Some g1);
                  ActiveResolves 7 (Some 7); Attach 9]
               (attach 7 world0).2)).2
  = Some (rect 0 0 1920 1080).
Proof.
  apply (snapshot_round_trip world0
           {| bounds := rect 0 0 1920 1080; visible := true |} 7
           eq_refl eq_refl).
  - reflexivity.
  - repeat constructor.
Defined.

(** ** The AttachState invariant *)


Lemma detach_state (w : World) : state (detach w).2 = detached_state.
Proof.
  destruct (isEnabled w) eqn:He.
  - rewrite (detach_enabled w He). unfold snd.
    by destruct (restoreOverlayBounds_control
                   (set_state detached_state (stopAll w))) as [_ ->].
  - by rewrite (detach_disabled w He).
Qed.









(** ** Follow mode: re-targeting *)

Lemma remove_first_elem (p q : Poll) (l : list Poll) :
  q ∈ remove_first p l → q ∈ l.
Proof.
  induction l as [|a l IH]; [done|]. simpl. case_decide as Hpa.
  - intros Hq. by right.
  - intros [->|Hq]%elem_of_cons; [by left|]. right. by apply IH.
Qed.

Lemma no_follow_loop_step (e : Event) (w : World) :
  is_host_call e = false → no_follow_loop w →
  no_follow_loop (step e w)
  ∧ mode (state (step e w)) = mode (state w)
  ∧ targetId (state (step e w)) = targetId (state w).
Proof.
  intros He [Ht Hp]. destruct e; try discriminate He; unfold step.
  - unfold timer_fires.
    destruct (timers w !! t) as [[wid|wid|]|] eqn:E;
      [| |by destruct (Ht t)|done];
      (split; [|done]); (split; [done|]);
      intros closure; wcbn;
      (intros [Hc|Hc%list_elem_of_singleton]%elem_of_app;
       [by destruct (Hp closure)|done]).
  - case_decide; [|done].
    destruct (geometry_resume_frame watcher r
                (resolve (GeometryPoll watcher windowId) w))
      as (_&_&Hti&_&_&Hin&_&_&_&_&_&Hm&Hta&_).
    split; [|done]. split.
    + intros t. rewrite Hti. apply Ht.
    + intros closure. rewrite Hin. wcbn.
      intros Hc%remove_first_elem. by destruct (Hp closure).
  - case_decide; [|done].
    destruct (visibility_resume_control windowId active
                (resolve (VisibilityPoll windowId) w))
      as [(_&_&Hti&_&_&_&Hin&_&_&_&_&_&Hm&Hta&_) _].
    split; [|done]. split.
    + intros t. rewrite Hti. apply Ht.
    + intros closure. rewrite Hin. wcbn.
      intros Hc%remove_first_elem. by destruct (Hp closure).
  - case_decide as Hin; [|done]. by destruct (Hp closure).
Qed.

Lemma no_follow_loop_run (es : list Event) (w : World) :
  Forall (λ e, is_host_call e = false) es → no_follow_loop w →
  no_follow_loop (run es w)
  ∧ mode (state (run es w)) = mode (state w)
  ∧ targetId (state (run es w)) = targetId (state w).
Proof.
  intros H. revert w. induction H as [|e es He _ IH]; intros w Hw; [done|].
  simpl. destruct (no_follow_loop_step e w He Hw) as (Hw' & <- & <-).
  by apply IH.
Qed.

Lemma world_following_eq :
  mode (state world_following) = follow
  ∧ targetId (state world_following) = Some 5
  ∧ lastGeometry (state world_following) = None
  ∧ stopFollow world_following = None
  ∧ timers world_following
    = <[2%nat := VisibilityInterval 5]> (<[1%nat := GeometryInterval 5]> ∅)
  ∧ inflight world_following = [].
Proof. split_and!; vm_compute; reflexivity. Qed.

(** In every well-formed world, a follow tick that attaches leaves no timer
    of the follow loop behind: [attach] clears it through [stopAll]. *)
Lemma follow_attach_clears_loop (closure : nat) (id : Z) (w : World) :
  wf w → isEnabled w = true → has_overlay w = true →
  id ≠ 0 → followLast w !! closure ≠ Some id →
  let w' := follow_resume closure (Some id) w in
  mode (state w') = follow ∧ targetId (state w') = Some id
  ∧ stopFollow w' = None
  ∧ ∀ t, timers w' !! t ≠ Some FollowInterval.
Proof.
  intros [Ho _] He Hov Hid Hl. cbv zeta. unfold follow_resume.
  apply Z.eqb_neq in Hid. rewrite Hid. case_decide; [done|].
  unfold has_overlay in Hov. destruct (overlay w) as [win|] eqn:Hw; [|done].
  match goal with |- context [attach id ?u] =>
    assert (Hu : timers_owned u) by exact Ho;
    rewrite (attach_eq id u win He Hw);
    destruct (attach_prepared_fields win u) as (_&_&_&_&_&_&_&_&_&_&_&_&Ht);
    specialize (Ht Hu); revert Ht; generalize (attach_prepared win u) end.
  intros u Ht. wcbn. split_and!; try done.
  intros t. rewrite Ht, !lookup_insert, lookup_empty. by repeat case_decide.
Qed.

(** C4.  [followFocused(true)] with window 5 active: the first tick attaches
    to 5 and restores the mode [follow], but [attach] has called [stopAll],
    which cleared the interval of the follow loop itself.  No timer and no
    pending tick of the loop is left, so whatever the timers and the
    provider do afterwards (in particular when every later
    [getActiveWindow] answers another window), the engine stays in mode
    [follow] with target 5 and never re-attaches. *)
Theorem follow_never_retargets (es : list Event) :
  Forall (λ e, is_host_call e = false) es →
  getState world_following
  = {| mode := follow; targetId := Some 5; lastGeometry := None |}
  ∧ stopFollow world_following = None
  ∧ no_follow_loop world_following
  ∧ mode (state (run es world_following)) = follow
  ∧ targetId (state (run es world_following)) = Some 5.
Proof.
  intros Hes. destruct world_following_eq as (Hs1 & Hs2 & Hs3 & Hf & Ht & Hp).
  assert (Hn : no_follow_loop world_following).
  { split.
    - intros t. rewrite Ht, !lookup_insert, lookup_empty.
      by repeat case_decide.
    - intros closure. rewrite Hp. apply not_elem_of_nil. }
  destruct (no_follow_loop_run es _ Hes Hn) as (_ & Hm & Hta).
  split; [unfold getState; by rewrite Hs1, Hs2, Hs3|].
  split; [done|]. split; [done|]. by rewrite Hm, Hta.
Qed.

Lemma follow_never_retargets_witness :
  targetId (state (run [TimerFires 2; ActiveResolves 5 (Some 9);
                        TimerFires 0; FollowResolves 0 (Some 9)]
                     world_following)) = Some 5.
Proof.
  apply (follow_never_retargets
           [TimerFires 2; ActiveResolves 5 (Some 9);
            TimerFires 0; FollowResolves 0 (Some 9)]).
  repeat constructor.
Defined.

(** ** Cancellation *)

(** A geometry poll in flight when [detach()] is called still runs the
    geometry-change handler when it resolves, although no timer is left: the
    handler is invoked, the overlay's bounds are written and the overlay,
    shown again by [detach()], is hidden. *)
Lemma write_after_detach :
  let w := (detach (run [Attach 7; TimerFires 0] world0)).2 in
  let w' := step (GeometryResolves 0 7 (Some g1)) w in
  timers w = ∅
  ∧ inflight w = [GeometryPoll 0 7]
  ∧ trace w' = [Hide; SetIgnoreMouseEvents; SetVisibleOnAllWorkspaces;
                SetAlwaysOnTop; SetBounds (geom g1);
                Invoked 0 (OnChange g1)] ++ trace w
  ∧ isVisible w = true ∧ isVisible w' = false.
Proof. cbv zeta. split_and!; vm_compute; reflexivity. Qed.

Lemma stopAll_keeps_absent (t : nat) (w : World) :
  timers w !! t = None → timers (stopAll w) !! t = None.
Proof.
  intros H. rewrite stopAll_timers, !lookup_cancel. by repeat case_decide.
Qed.

Lemma attach_prepared_keeps_absent (t : nat) (win : BrowserWindow) (w : World) :
  timers w !! t = None → timers (attach_prepared win w) !! t = None.
Proof.
  intros H. unfold attach_prepared.
  destruct (is_detached _); by apply stopAll_keeps_absent.
Qed.

Lemma invoked_by_trace (t : nat) (w w' : World) :
  trace w' = trace w → invoked_by t w' = invoked_by t w.
Proof. unfold invoked_by. by intros ->. Qed.

Lemma attach_retired (t : nat) (windowId : Z) (w : World) :
  watcher_retired t w →
  watcher_retired t (attach windowId w).2
  ∧ invoked_by t (attach windowId w).2 = invoked_by t w.
Proof.
  intros (Ht & Hp & Hn).
  destruct (attach_frame windowId w) as (_&_&Htr&_).
  split; [|by apply invoked_by_trace].
  destruct (isEnabled w) eqn:He; [|by rewrite attach_refused; [|left]].
  destruct (overlay w) as [win|] eqn:Ho; [|by rewrite attach_refused; [|right]].
  rewrite (attach_eq _ _ win He Ho). unfold snd. cbv zeta.
  pose proof (attach_prepared_keeps_absent t win w Ht) as Ha.
  destruct (attach_prepared_fields win w) as (_&_&_&_&Hi&Hx&_).
  revert Ha Hi Hx. generalize (attach_prepared win w). intros u Ha Hi Hx.
  unfold watcher_retired. wcbn. rewrite Hi, Hx.
  split; [|split; [done|lia]].
  rewrite !lookup_insert_ne by lia. done.
Qed.

Lemma released_retired (t : nat) (w : World) :
  watcher_retired t w →
  let w' := restoreOverlayBounds (set_state detached_state (stopAll w)) in
  watcher_retired t w' ∧ invoked_by t w' = invoked_by t w.
Proof.
  intros (Ht & Hp & Hn). cbv zeta.
  destruct (restoreOverlayBounds_control (set_state detached_state (stopAll w)))
    as [(_&_&H1&H2&_&_&H3&_&_&_&_&_&_&_&_&H4) _].
  unfold watcher_retired. rewrite H1, H2, H3, H4. unfold invoked_by. wcbn.
  destruct (stopAll_frame w) as (_&_&Htr&_&_&E1&E2).
  rewrite E1, E2, Htr.
  repeat split; try done. by apply stopAll_keeps_absent.
Qed.

Lemma detach_retired (t : nat) (w : World) :
  watcher_retired t w →
  watcher_retired t (detach w).2 ∧ invoked_by t (detach w).2 = invoked_by t w.
Proof.
  intros H. destruct (isEnabled w) eqn:He.
  - rewrite (detach_enabled w He). by apply released_retired.
  - by rewrite (detach_disabled w He).
Qed.

Lemma followFocused_retired (t : nat) (enable : bool) (w : World) :
  watcher_retired t w →
  watcher_retired t (followFocused enable w).2
  ∧ invoked_by t (followFocused enable w).2 = invoked_by t w.
Proof.
  intros H. destruct (isEnabled w) eqn:He; [|by rewrite followFocused_disabled].
  destruct enable.
  - rewrite (followFocused_true_enabled w He). unfold snd. cbv zeta.
    destruct H as (Ht & Hp & Hn).
    pose proof (stopAll_keeps_absent t w Ht) as Ha.
    destruct (stopAll_frame w) as (_&_&Htr&_&_&E1&E2).
    revert Ha Htr E1 E2. generalize (stopAll w). intros u Ha Htr E1 E2.
    unfold watcher_retired, invoked_by. wcbn. rewrite Htr, E1, E2.
    split; [|done]. split; [|split; [|lia]].
    + by rewrite lookup_insert_ne by lia.
    + intros wid [Hc|Hc%list_elem_of_singleton]%elem_of_app; [|done].
      by destruct (Hp wid).
  - rewrite (followFocused_false_enabled w He). by apply released_retired.
Qed.

Lemma geometry_resume_invoked (t t' : nat) (r : option X11Geometry) (w : World) :
  t ≠ t' → invoked_by t (geometry_resume t' r w) = invoked_by t w.
Proof.
  intros Hne. unfold geometry_resume.
  assert (E : ∀ c u, trace u = trace w →
                invoked_by t (record_effect (Invoked t' c) u) = invoked_by t w).
  { intros c u Hu. unfold invoked_by. wcbn. rewrite Hu. simpl.
    by destruct (Nat.eqb_spec t' t) as [->|]. }
  destruct (watchGeometry_tick _ _ _) as [l [[g|]|]]; [| |done].
  - match goal with |- context [onChange g ?u] =>
      destruct (onChange_control g u) as [(_&_&_&_&_&_&_&_&_&_&_&_&_&_&_&H) _]
    end.
    rewrite H. by apply E.
  - match goal with |- context [onMissing ?u] =>
      destruct (onMissing_control u) as [(_&_&_&_&_&_&_&_&_&_&_&_&_&_&_&H) _]
    end.
    rewrite H. by apply E.
Qed.

Lemma watcher_retired_frame (t : nat) (w w' : World) :
  timers w' = timers w → nextTimer w' = nextTimer w →
  (∀ p, p ∈ inflight w' → p ∈ inflight w) →
  watcher_retired t w → watcher_retired t w'.
Proof.
  intros Ht Hn Hp (H1 & H2 & H3). unfold watcher_retired.
  rewrite Ht, Hn. split; [done|]. split; [|done].
  intros wid Hin. by destruct (H2 wid); apply Hp.
Qed.

Lemma watcher_retired_resolve (t : nat) (p : Poll) (w : World) :
  watcher_retired t w → watcher_retired t (resolve p w).
Proof.
  apply watcher_retired_frame; [done..|]. intros q. apply remove_first_elem.
Qed.

Lemma watcher_retired_step (t : nat) (e : Event) (w : World) :
  watcher_retired t w →
  watcher_retired t (step e w) ∧ invoked_by t (step e w) = invoked_by t w.
Proof.
  intros H. pose proof H as (Ht & Hp & Hn). destruct e; unfold step.
  - by apply attach_retired.
  - by apply detach_retired.
  - by apply followFocused_retired.
  - unfold timer_fires.
    destruct (timers w !! t0) as [[wid|wid|]|] eqn:E; [| | |done];
      (split; [|done]);
      (split; [done|]); (split; [|done]);
      intros wid' [Hc|Hc%list_elem_of_singleton]%elem_of_app;
      try (by destruct (Hp wid')); try discriminate Hc.
    injection Hc as -> ->. congruence.
  - case_decide as Hin; [|done].
    assert (Hne : t ≠ watcher) by (intros ->; by destruct (Hp windowId)).
    pose proof (watcher_retired_resolve t (GeometryPoll watcher windowId) w H)
      as Hr.
    destruct (geometry_resume_frame watcher r
                (resolve (GeometryPoll watcher windowId) w))
      as (_&_&H1&H2&_&H3&_).
    split.
    + revert Hr. apply watcher_retired_frame; try done. by rewrite H3.
    + by rewrite (geometry_resume_invoked t watcher r _ Hne).
  - case_decide as Hin; [|done].
    pose proof (watcher_retired_resolve t (VisibilityPoll windowId) w H) as Hr.
    destruct (visibility_resume_control windowId active
                (resolve (VisibilityPoll windowId) w))
      as [(_&_&H1&H2&_&_&H3&_&_&_&_&_&_&_&_&H4) _].
    split.
    + revert Hr. apply watcher_retired_frame; try done. by rewrite H3.
    + by rewrite H4.
  - case_decide as Hin; [|done].
    pose proof (watcher_retired_resolve t (FollowPoll closure) w H) as Hr.
    destruct (follow_resume_cases closure active
                (resolve (FollowPoll closure) w)) as [->|(id&_&_&_&->)];
      [done|].
    cbv zeta.
    match goal with |- context [attach id ?u] =>
      assert (Hu : watcher_retired t u)
        by (revert Hr; by apply watcher_retired_frame);
      destruct (attach_retired t id u Hu) as [Ha Hb];
      revert Ha Hb; generalize (attach id u).2 end.
    intros u' Ha Hb. split; [exact Ha|].
    etransitivity; [exact Hb|]. reflexivity.
Qed.

Lemma watcher_retired_run (t : nat) (es : list Event) (w : World) :
  watcher_retired t w →
  watcher_retired t (run es w) ∧ invoked_by t (run es w) = invoked_by t w.
Proof.
  revert w. induction es as [|e es IH]; intros w H; [done|].
  simpl. destruct (watcher_retired_step t e w H) as [H' <-]. by apply IH.
Qed.

Lemma quiet_step (e : Event) (w : World) :
  is_host_call e = false → timers w = ∅ → inflight w = [] → step e w = w.
Proof.
  intros He Ht Hp. destruct e; try discriminate He; unfold step.
  - unfold timer_fires. by rewrite Ht, lookup_empty.
  - case_decide as Hin; [|done]. by destruct (elem_of_nil_inflight _ _ Hp Hin).
  - case_decide as Hin; [|done]. by destruct (elem_of_nil_inflight _ _ Hp Hin).
  - case_decide as Hin; [|done]. by destruct (elem_of_nil_inflight _ _ Hp Hin).
Qed.

Lemma quiet_run (es : list Event) (w : World) :
  Forall (λ e, is_host_call e = false) es →
  timers w = ∅ → inflight w = [] → run es w = w.
Proof.
  induction 1 as [|e es He _ IH]; intros Ht Hp; [done|].
  simpl. rewrite (quiet_step e w He Ht Hp). by apply IH.
Qed.

Lemma detach_inflight (w : World) : inflight (detach w).2 = inflight w.
Proof.
  destruct (isEnabled w) eqn:He.
  - rewrite (detach_enabled w He). unfold snd.
    destruct (restoreOverlayBounds_control (set_state detached_state (stopAll w)))
      as [(_&_&_&_&_&_&->&_) _].
    wcbn. by destruct (stopAll_frame w) as (_&_&_&_&_&->&_).
  - by rewrite (detach_disabled w He).
Qed.

Lemma clearInterval_retires (t : nat) (w : World) :
  (t < nextTimer w)%nat → (∀ windowId, GeometryPoll t windowId ∉ inflight w) →
  watcher_retired t (clearInterval t w)
  ∧ invoked_by t (clearInterval t w) = invoked_by t w.
Proof.
  intros Hn Hp. split; [|done]. unfold watcher_retired. wcbn.
  by rewrite lookup_delete_eq.
Qed.

Lemma clearInterval_twice (t : nat) (w : World) :
  clearInterval t (clearInterval t w) = clearInterval t w.
Proof. unfold clearInterval, set_loop. wcbn. by rewrite delete_delete_eq. Qed.

(** Without timer and without follow tick in flight, what timers and the
    provider do installs no timer and keeps the mode: the handlers of the
    polls still in flight drive the overlay only. *)
Lemma no_new_timers_step (e : Event) (w : World) :
  is_host_call e = false →
  timers w = ∅ → (∀ closure, FollowPoll closure ∉ inflight w) →
  timers (step e w) = ∅
  ∧ (∀ closure, FollowPoll closure ∉ inflight (step e w))
  ∧ mode (state (step e w)) = mode (state w).
Proof.
  intros He Ht Hp.
  assert (Hl : no_follow_loop w).
  { split; [|done]. intros t. by rewrite Ht, lookup_empty. }
  destruct (no_follow_loop_step e w He Hl) as ([_ Hp'] & Hm & _).
  split; [|done]. clear Hl Hp' Hm.
  destruct e; try discriminate He; unfold step.
  - unfold timer_fires. by rewrite Ht, lookup_empty.
  - case_decide; [|done].
    destruct (geometry_resume_frame watcher r
                (resolve (GeometryPoll watcher windowId) w))
      as (_ & _ & -> & _).
    exact Ht.
  - case_decide; [|done].
    destruct (visibility_resume_control windowId active
                (resolve (VisibilityPoll windowId) w))
      as [(_ & _ & -> & _) _].
    exact Ht.
  - case_decide as Hin; [|done]. by destruct (Hp closure).
Qed.

Lemma no_new_timers_run (es : list Event) (w : World) :
  Forall (λ e, is_host_call e = false) es →
  timers w = ∅ → (∀ closure, FollowPoll closure ∉ inflight w) →
  timers (run es w) = ∅ ∧ mode (state (run es w)) = mode (state w).
Proof.
  intros H. revert w. induction H as [|e es He _ IH]; intros w Ht Hp; [done|].
  simpl. destruct (no_new_timers_step e w He Ht Hp) as (Ht' & Hp' & <-).
  by apply IH.
Qed.

(** A follow tick in flight at [detach()] re-attaches when it resumes with a
    window: the service is in mode [follow] again, with the two watchers of
    window 5 live, and the next geometry poll moves the overlay, although
    the host has not called. *)
Lemma reattach_after_detach :
  let w := (detach (run [FollowFocused true] world0)).2 in
  let w' := step (FollowResolves 0 (Some 5)) w in
  let w'' := run [TimerFires 1; GeometryResolves 1 5 (Some g1)] w' in
  timers w = ∅
  ∧ inflight w = [FollowPoll 0]
  ∧ state w = detached_state
  ∧ state w' = {| mode := follow; targetId := Some 5; lastGeometry := None |}
  ∧ timers w' = <[2%nat := VisibilityInterval 5]>
                  (<[1%nat := GeometryInterval 5]> ∅)
  ∧ bounds <$> overlay w = Some (rect 0 0 1920 1080)
  ∧ bounds <$> overlay w'' = Some (geom g1).
Proof. cbv zeta. split_and!; vm_compute; reflexivity. Qed.

(** C1. In every reachable world, [detach()] leaves no timer, so in the
    world it returns no tick starts a poll; the polls already in flight
    stay in flight.  As long as no follow tick is among them, whatever
    timers and the provider do afterwards, no timer is installed and the
    mode stays [detached] until the host calls again; when no poll at all
    is in flight, nothing changes the world: no overlay write and no watcher
    callback.  The cancel function of [watchGeometry] may be called twice
    with the effect of once, and once it has been called with none of the
    watcher's polls in flight, no [onChange] or [onMissing] of that watcher
    is invoked again, whatever happens later. *)
Theorem cancellation (w : World) :
  reachable w →
  let w' := (detach w).2 in
  timers w' = ∅
  ∧ (∀ t, timer_fires t w' = w')
  ∧ inflight w' = inflight w
  ∧ (inflight w = [] →
     ∀ es, Forall (λ e, is_host_call e = false) es → run es w' = w')
  ∧ ((∀ closure, FollowPoll closure ∉ inflight w) →
     ∀ es, Forall (λ e, is_host_call e = false) es →
           timers (run es w') = ∅
           ∧ (∀ t, timer_fires t (run es w') = run es w')
           ∧ mode (state (run es w')) = detached)
  ∧ (∀ t, clearInterval t (clearInterval t w) = clearInterval t w)
  ∧ (∀ t es, (t < nextTimer w)%nat →
             (∀ windowId, GeometryPoll t windowId ∉ inflight w) →
             invoked_by t (run es (clearInterval t w)) = invoked_by t w).
Proof.
  intros Hr w'. pose proof (reachable_wf w Hr) as Hwf.
  assert (Ht : timers w' = ∅) by (by apply detach_timers_empty).
  assert (Hp : inflight w' = inflight w) by apply detach_inflight.
  split_and!; try done.
  - intros t. unfold timer_fires. by rewrite Ht, lookup_empty.
  - intros Hq es Hes. apply quiet_run; [done..|]. by rewrite Hp.
  - intros Hf es Hes.
    destruct (no_new_timers_run es w' Hes Ht) as [Ht' Hm'].
    { intros closure. rewrite Hp. apply Hf. }
    split_and!; [done| |].
    + intros t. unfold timer_fires. by rewrite Ht', lookup_empty.
    + rewrite Hm'. unfold w'. by rewrite (detach_state w).
  - intros t. apply clearInterval_twice.
  - intros t es Hn Hin.
    destruct (clearInterval_retires t w Hn Hin) as [H1 H2].
    destruct (watcher_retired_run t es _ H1) as [_ ->]. done.
Qed.

Lemma cancellation_witness :
  run [TimerFires 0; TimerFires 1; GeometryResolves 0 7 (Some g1);
       ActiveResolves 7 (Some 7)]
    (detach (run [Attach 7] world0)).2
  = (detach (run [Attach 7] world0)).2.
Proof.
  refine (proj1 (proj2 (proj2 (proj2
            (cancellation (run [Attach 7] world0) _)))) eq_refl _ _).
  - by exists (Some {| bounds := rect 0 0 1920 1080; visible := true |}),
              (rect 0 0 1920 1080), None, None, true, [Attach 7].
  - repeat constructor.
Defined.


(** * Further properties of the service *)

(** ** What no event changes *)

Lemma attach_constants (windowId : Z) (w : World) :
  pollMs (attach windowId w).2 = pollMs w
  ∧ lastMapped (attach windowId w).2 = lastMapped w
  ∧ lastActive (attach windowId w).2 = lastActive w.
Proof.
  destruct (isEnabled w) eqn:He; [|by rewrite attach_refused; [|left]].
  destruct (overlay w) as [win|] eqn:Ho; [|by rewrite attach_refused; [|right]].
  rewrite (attach_eq _ _ win He Ho). unfold snd. cbv zeta.
  destruct (attach_prepared_fields win w) as (_&_&_&_&_&_&_&_&H1&H2&_).
  assert (H0 : pollMs (attach_prepared win w) = pollMs w).
  { unfold attach_prepared. rewrite stopAll_eq. by destruct (is_detached _). }
  revert H0 H1 H2. generalize (attach_prepared win w). intros u H0 H1 H2.
  by wcbn.
Qed.

Lemma handlers_pollMs (w : World) :
  pollMs (restoreOverlayBounds w) = pollMs w
  ∧ (∀ g, pollMs (onChange g w) = pollMs w)
  ∧ pollMs (onMissing w) = pollMs w
  ∧ (∀ windowId active, pollMs (visibility_resume windowId active w) = pollMs w).
Proof.
  split_and!.
  - open_world w. open_window; [|by evaluate]. destruct v, pb; by evaluate.
  - intros [gg gm]. open_world w. open_window; [|by evaluate].
    destruct (geometry_differs b gg) eqn:Hd; destruct v, gm, la; by evaluate.
  - open_world w. open_window; [destruct v|]; by evaluate.
  - intros windowId active. unfold visibility_resume.
    generalize (bool_decide (active = Some windowId)). intros f.
    open_world w. open_window; [|by evaluate]. destruct v, lm, f; by evaluate.
Qed.

Lemma step_pollMs (e : Event) (w : World) : pollMs (step e w) = pollMs w.
Proof.
  assert (Hrel : pollMs (restoreOverlayBounds (set_state detached_state (stopAll w)))
                 = pollMs w).
  { destruct (handlers_pollMs (set_state detached_state (stopAll w))) as [-> _].
    wcbn. by rewrite stopAll_eq. }
  destruct e; unfold step.
  - apply attach_constants.
  - destruct (isEnabled w) eqn:He.
    + by rewrite (detach_enabled w He).
    + by rewrite (detach_disabled w He).
  - destruct (isEnabled w) eqn:He; [|by rewrite followFocused_disabled].
    destruct enable.
    + rewrite (followFocused_true_enabled w He). wcbn. by rewrite stopAll_eq.
    + by rewrite (followFocused_false_enabled w He).
  - unfold timer_fires. by destruct (timers w !! t) as [[]|].
  - case_decide; [|done]. unfold geometry_resume.
    destruct (watchGeometry_tick _ _ _) as [l [[g|]|]]; [| |done].
    + match goal with |- context [onChange g ?u] =>
        destruct (handlers_pollMs u) as (_&Hp&_) end.
      by rewrite Hp.
    + match goal with |- context [onMissing ?u] =>
        destruct (handlers_pollMs u) as (_&_&Hp&_) end.
      by rewrite Hp.
  - case_decide; [|done].
    by destruct (handlers_pollMs (resolve (VisibilityPoll windowId) w))
      as (_&_&_&->).
  - case_decide; [|done].
    destruct (follow_resume_cases closure active
                (resolve (FollowPoll closure) w)) as [->|(id&_&_&_&->)]; [done|].
    cbv zeta. wcbn.
    match goal with |- context [attach id ?u] =>
      by destruct (attach_constants id u) as [-> _] end.
Qed.

(** X1. No call, timer or callback ever changes the poll period, which is
    [Math.max(50, Math.min(500, opts?.pollMs ?? 100))]: 100 when no period is
    requested, the requested one when it lies in [50, 500], the nearer bound
    when it lies outside, also for the infinities.  A requested NaN is not
    clamped: the period is NaN. *)
Theorem pollMs_clamped ov display optPollMs optEnabled x11 (es : list Event) :
  let w := run es (WindowAttachService_new ov display optPollMs optEnabled x11) in
  match optPollMs with
  | None => pollMs w = DFinite 100
  | Some DNaN => pollMs w = DNaN
  | Some (DInfinite negative) =>
      pollMs w = DFinite (if negative then 50 else 500)
  | Some (DFinite p) =>
      ∃ q, pollMs w = DFinite q
           ∧ (50 <= q)%Q ∧ (q <= 500)%Q
           ∧ ((50 <= p)%Q → (p <= 500)%Q → (q == p)%Q)
           ∧ ((p < 50)%Q → q = 50%Q)
           ∧ ((500 < p)%Q → q = 500%Q)
  end.
Proof.
  assert (Hrun : ∀ es u, pollMs (run es u) = pollMs u).
  { clear. induction es as [|e es IH]; intros u; [done|].
    simpl. by rewrite IH, step_pollMs. }
  cbv zeta. rewrite Hrun. unfold WindowAttachService_new.
  cbn [pollMs]. destruct optPollMs as [[p|[]|]|]; try reflexivity.
  change (default (DFinite 100) (Some (DFinite p))) with (DFinite p).
  unfold Math_min.
  destruct (Qle_bool 500 p) eqn:E500.
  - apply Qle_bool_iff in E500. exists 500%Q. split_and!; try done.
    + intros _ H. by apply Qle_antisym.
    + intros H. exfalso. apply (Qlt_irrefl 50).
      apply Qle_lt_trans with p; [|done].
      by apply Qle_trans with 500%Q.
  - assert (H500 : (p < 500)%Q).
    { apply Qnot_le_lt. intros H%Qle_bool_iff. by rewrite H in E500. }
    unfold Math_max. destruct (Qle_bool p 50) eqn:E50.
    + apply Qle_bool_iff in E50. exists 50%Q. split_and!; try done.
      * intros H _. by apply Qle_antisym.
      * intros H. exfalso. apply (Qlt_irrefl 500).
        by apply Qlt_trans with p.
    + assert (H50 : (50 < p)%Q).
      { apply Qnot_le_lt. intros H%Qle_bool_iff. by rewrite H in E50. }
      exists p. split_and!; try done.
      * by apply Qlt_le_weak.
      * by apply Qlt_le_weak.
      * intros H. exfalso. apply (Qlt_irrefl 50). by apply Qlt_trans with p.
      * intros H. exfalso. apply (Qlt_irrefl 500). by apply Qlt_trans with p.
Qed.

(** ** A service without provider *)

(** X2. A service whose provider is not enabled (it was constructed on a
    session that is not X11, or with [enabled: false]) stays exactly as it
    was constructed, whatever the host calls and whatever events arrive:
    [attach] and [followFocused] are refused, [detach] finds the state
    already detached, nothing is ever polled and the overlay is never
    written. *)
Theorem disabled_service_is_inert ov display optPollMs optEnabled x11
    (es : list Event) :
  let w0 := WindowAttachService_new ov display optPollMs optEnabled x11 in
  isEnabled w0 = default x11 optEnabled && x11
  ∧ (default x11 optEnabled && x11 = false → run es w0 = w0).
Proof.
  cbv zeta.
  assert (He : isEnabled (WindowAttachService_new ov display optPollMs
                            optEnabled x11) = default x11 optEnabled && x11).
  { unfold isEnabled. simpl. by destruct (default x11 optEnabled), x11. }
  split; [done|]. intros Hd. rewrite <- He in Hd. clear He.
  revert Hd. generalize (eq_refl (WindowAttachService_new ov display optPollMs
                                    optEnabled x11)).
  generalize (WindowAttachService_new ov display optPollMs optEnabled x11) at 1 3 4 5.
  intros w0 Hw0 He.
  assert (Hstep : ∀ e, step e w0 = w0).
  { intros e. destruct e; unfold step.
    - rewrite attach_refused; [done|by left].
    - rewrite (detach_disabled w0 He). by rewrite Hw0.
    - by rewrite (followFocused_disabled _ w0 He).
    - unfold timer_fires. by rewrite Hw0.
    - case_decide as Hin; [|done]. rewrite Hw0 in Hin. by apply elem_of_nil in Hin.
    - case_decide as Hin; [|done]. rewrite Hw0 in Hin. by apply elem_of_nil in Hin.
    - case_decide as Hin; [|done]. rewrite Hw0 in Hin. by apply elem_of_nil in Hin. }
  induction es as [|e es IH]; [done|]. simpl. by rewrite Hstep.
Qed.

Lemma disabled_service_is_inert_witness :
  run [Attach 7; FollowFocused true; TimerFires 0; Detach] world_disabled
  = world_disabled.
Proof.
  exact (proj2 (disabled_service_is_inert
                  (Some {| bounds := rect 0 0 1920 1080; visible := true |})
                  (rect 0 0 1920 1080) None (Some false) true
                  [Attach 7; FollowFocused true; TimerFires 0; Detach])
           eq_refl).
Defined.

(** ** The timers of a service *)

Lemma timers_shape_frame (w w' : World) :
  timers w' = timers w → targetId (state w') = targetId (state w) →
  timers_shape w → timers_shape w'.
Proof. unfold timers_shape. by intros -> ->. Qed.

Lemma timers_shape_empty (w : World) : timers w = ∅ → timers_shape w.
Proof. by left. Qed.

Lemma attach_shape (windowId : Z) (w : World) :
  timers_owned w → timers_shape w →
  (mode (state w) = detached → timers w = ∅) →
  timers_shape (attach windowId w).2
  ∧ (mode (state (attach windowId w).2) = detached →
     timers (attach windowId w).2 = ∅).
Proof.
  intros Ho Hs Hd.
  destruct (isEnabled w) eqn:He; [|by rewrite attach_refused; [|left]].
  destruct (overlay w) as [win|] eqn:Hw; [|by rewrite attach_refused; [|right]].
  rewrite (attach_eq _ _ win He Hw). unfold snd. cbv zeta.
  destruct (attach_prepared_fields win w) as (_&_&_&_&_&_&_&_&_&_&_&_&Ht).
  specialize (Ht Ho). revert Ht. generalize (attach_prepared win w).
  intros u Ht. split; [|done]. right. right.
  exists (nextTimer u), (S (nextTimer u)), windowId. wcbn. rewrite Ht.
  split; [lia|done].
Qed.

Lemma step_shape (e : Event) (w : World) :
  wf w → timers_shape w → (mode (state w) = detached → timers w = ∅) →
  timers_shape (step e w)
  ∧ (mode (state (step e w)) = detached → timers (step e w) = ∅).
Proof.
  intros Hwf Hs Hd. pose proof Hwf as [Ho Hi].
  assert (Hdet : timers (detach w).2 = ∅) by (by apply detach_timers_empty).
  destruct e; unfold step.
  - by apply attach_shape.
  - split; [by apply timers_shape_empty|done].
  - destruct (isEnabled w) eqn:He; [|by rewrite followFocused_disabled].
    destruct enable.
    + rewrite (followFocused_true_enabled w He). unfold snd. cbv zeta.
      pose proof (stopAll_timers_empty w Ho) as Ht. revert Ht.
      generalize (stopAll w). intros u Ht. split; [|done].
      right. left. exists (nextTimer u). wcbn. by rewrite Ht, insert_empty.
    + rewrite (followFocused_false_enabled w He), <- (detach_enabled w He).
      split; [by apply timers_shape_empty|done].
  - unfold timer_fires. by destruct (timers w !! t) as [[]|].
  - case_decide; [|done].
    destruct (geometry_resume_frame watcher r
                (resolve (GeometryPoll watcher windowId) w))
      as (_&_&Ht&_&_&_&_&_&_&_&_&Hm&Hta&_).
    rewrite Hm, Ht. split; [|done].
    by apply (timers_shape_frame w).
  - case_decide; [|done].
    destruct (visibility_resume_control windowId active
                (resolve (VisibilityPoll windowId) w))
      as [(_&_&Ht&_) Hst].
    rewrite Hst, Ht. split; [|done].
    apply (timers_shape_frame w); [done| |done]. by rewrite Hst.
  - case_decide; [|done].
    destruct (follow_resume_cases closure active
                (resolve (FollowPoll closure) w)) as [->|(id&_&_&_&->)]; [done|].
    cbv zeta.
    match goal with |- context [attach id ?u] =>
      destruct (attach_shape id u Ho Hs Hd) as [Ha _];
      revert Ha; generalize (attach id u).2 end.
    intros u Ha. split; [|done].
    revert Ha. by apply timers_shape_frame.
Qed.

Lemma reachable_shape (w : World) :
  reachable w →
  timers_shape w ∧ (mode (state w) = detached → timers w = ∅).
Proof.
  intros (ov & d & p & en & x11 & es & ->).
  pose proof (wf_new ov d p en x11) as Hwf.
  assert (H0 : timers_shape (WindowAttachService_new ov d p en x11)
               ∧ (mode (state (WindowAttachService_new ov d p en x11)) = detached
                  → timers (WindowAttachService_new ov d p en x11) = ∅))
    by (split; [by left|done]).
  revert Hwf H0. generalize (WindowAttachService_new ov d p en x11).
  induction es as [|e es IH]; intros w Hwf [Hs Hd]; [done|].
  simpl. apply IH; [by apply wf_step|by apply step_shape].
Qed.

(** X3. In every reachable world the live timers are one of three: none,
    the follow loop alone, or the geometry watcher and the visibility
    watchdog of the current target and nothing else.  So at most two timers
    are live, a live geometry or visibility timer always polls the window
    that [targetId] names, and no timer is live in mode [detached]. *)
Theorem timers_bounded (w : World) :
  reachable w →
  (timers w = ∅
   ∨ (∃ f, timers w = {[f := FollowInterval]})
   ∨ (∃ a b windowId,
        a ≠ b
        ∧ timers w = <[b := VisibilityInterval windowId]>
                       (<[a := GeometryInterval windowId]> ∅)
        ∧ targetId (state w) = Some windowId))
  ∧ (size (timers w) ≤ 2)%nat
  ∧ (∀ t windowId,
       timers w !! t = Some (GeometryInterval windowId)
       ∨ timers w !! t = Some (VisibilityInterval windowId) →
       targetId (state w) = Some windowId)
  ∧ (mode (state w) = detached → timers w = ∅).
Proof.
  intros Hr. destruct (reachable_shape w Hr) as [Hs Hd].
  split; [exact Hs|]. split; [|split; [|done]].
  - destruct Hs as [-> | [(f & ->) | (a & b & wid & Hab & -> & _)]].
    + rewrite map_size_empty. lia.
    + rewrite map_size_singleton. lia.
    + rewrite map_size_insert_None.
      * rewrite map_size_insert_None; [rewrite map_size_empty; lia|done].
      * by rewrite lookup_insert_ne.
  - intros t wid Ht.
    destruct Hs as [E | [(f & E) | (a & b & wid' & Hab & E & Hta)]];
      rewrite E in Ht.
    + rewrite lookup_empty in Ht. by destruct Ht.
    + rewrite lookup_singleton in Ht.
      case_decide; by destruct Ht.
    + rewrite !lookup_insert, lookup_empty in Ht.
      repeat case_decide; destruct Ht as [Ht|Ht]; try done;
        injection Ht as <-; done.
Qed.

Lemma timers_bounded_witness :
  (size (timers (run [FollowFocused true; FollowResolves 0 (Some 5%Z);
                      Attach 9%Z] world0)) ≤ 2)%nat.
Proof.
  refine (proj1 (proj2 (timers_bounded
            (run [FollowFocused true; FollowResolves 0 (Some 5); Attach 9]
               world0) _))).
  by exists (Some {| bounds := rect 0 0 1920 1080; visible := true |}),
            (rect 0 0 1920 1080), None, None, true,
            [FollowFocused true; FollowResolves 0 (Some 5); Attach 9].
Defined.

(** ** What attach does and does not do *)

(** X4. In a reachable world with the provider enabled and an overlay
    window, [attach] returns [true], sets the state to attached to the
    window with no last geometry, and leaves exactly two timers, the
    geometry watcher and the visibility watchdog of that window, with a
    fresh [last].  It does not touch the overlay, writes nothing, keeps the
    polls in flight and keeps the flags [lastMapped] and [lastActive] of the
    previous target.  Without provider or without overlay window it returns
    [false] and changes nothing. *)
Theorem attach_installs_watchers (windowId : Z) (w : World) :
  reachable w →
  let w' := (attach windowId w).2 in
  let n := nextTimer w in
  (attach windowId w).1 = isEnabled w && has_overlay w
  ∧ (isEnabled w && has_overlay w = false → w' = w)
  ∧ (isEnabled w && has_overlay w = true →
     state w' = {| mode := attached; targetId := Some windowId;
                   lastGeometry := None |}
     ∧ timers w' = <[S n := VisibilityInterval windowId]>
                     (<[n := GeometryInterval windowId]> ∅)
     ∧ stopWatch w' = Some n ∧ stopVisibilityWatch w' = Some (S n)
     ∧ stopFollow w' = None
     ∧ watchLast w' !! n = None
     ∧ overlay w' = overlay w ∧ trace w' = trace w
     ∧ inflight w' = inflight w
     ∧ lastMapped w' = lastMapped w ∧ lastActive w' = lastActive w).
Proof.
  intros Hr. destruct (reachable_wf w Hr) as [Ho _]. cbv zeta.
  unfold has_overlay.
  destruct (isEnabled w) eqn:He;
    [|rewrite attach_refused by (by left); by split_and!].
  destruct (overlay w) as [win|] eqn:Hw;
    [|rewrite attach_refused by (by right); by split_and!].
  split_and!; [by rewrite (attach_eq _ _ win He Hw)|done|]. intros _.
  destruct (attach_constants windowId w) as (_ & Hm & Ha).
  destruct (attach_frame windowId w) as (_ & Hov & Htr & _).
  rewrite Hm, Ha, Hov, Htr. clear Hm Ha Hov Htr.
  rewrite (attach_eq _ _ win He Hw). unfold snd. cbv zeta.
  destruct (attach_prepared_fields win w) as (_&_&_&_&Hi&Hn&_&_&_&_&_&_&Ht).
  specialize (Ht Ho). revert Hi Hn Ht. generalize (attach_prepared win w).
  intros u Hi Hn Ht. wcbn. rewrite Hi, Hn, Ht, Hw.
  split_and!; try done. apply lookup_delete_eq.
Qed.

Lemma attach_installs_watchers_witness :
  state (attach 9 (run [Attach 7] world0)).2
  = {| mode := attached; targetId := Some 9; lastGeometry := None |}.
Proof.
  refine (proj1 (proj2 (proj2 (attach_installs_watchers 9
                                 (run [Attach 7] world0) _)) eq_refl)).
  by exists (Some {| bounds := rect 0 0 1920 1080; visible := true |}),
            (rect 0 0 1920 1080), None, None, true, [Attach 7].
Defined.

(** ** The overlay follows the target *)

(** X5. With an overlay window, [applyOverlayBounds] for a mapped target
    leaves the overlay shown at exactly the target's geometry, and for an
    unmapped target leaves it hidden where it was.  Applying the same
    geometry a second time changes nothing and writes nothing: no
    [setBounds], no attribute, no show or hide. *)
Theorem applyOverlayBounds_converges (g : Geometry) (m : bool) (w : World) :
  applyOverlayBounds g m (applyOverlayBounds g m w) = applyOverlayBounds g m w
  ∧ overlay (applyOverlayBounds g m w)
    = (λ win, {| bounds := if m then g else bounds win; visible := m |})
        <$> overlay w.
Proof.
  open_world w. open_window; [|by evaluate].
  destruct (geometry_differs b g) eqn:Hd; destruct m, v; split;
    evaluate; rewrite ?geometry_differs_refl, ?Hd; evaluate; try done;
    apply geometry_differs_false in Hd; by subst.
Qed.

(** ** A missed poll *)

Lemma set_loop_same (w : World) :
  set_loop (timers w) (nextTimer w) (watchLast w) (followLast w) (inflight w) w
  = w.
Proof. by destruct w. Qed.

Lemma geometry_resume_missing (t : nat) (w : World) :
  geometry_resume t None w = onMissing (record_effect (Invoked t OnMissing) w).
Proof.
  unfold geometry_resume, watchGeometry_tick.
  by rewrite partial_alter_self, set_loop_same.
Qed.

Lemma geometry_resume_unchanged (t : nat) (g : X11Geometry) (w : World) :
  watchLast w !! t = Some g → geometry_resume t (Some g) w = w.
Proof.
  intros H. unfold geometry_resume, watchGeometry_tick.
  rewrite H, watch_changed_same. rewrite <- H.
  by rewrite partial_alter_self, set_loop_same.
Qed.

(** X6. When a geometry poll of a watcher finds nothing, the overlay is
    hidden and [lastMapped] is cleared, while the [AttachState], the timers
    and the watcher's last emitted geometry stay as they are.  If the next
    poll then finds the window with the geometry the watcher emitted last,
    no handler runs and the world is unchanged: the overlay stays hidden,
    also after any focus poll, until the window's geometry or mapped flag
    differs from that last emission. *)
Theorem hidden_after_transient_miss (t : nat) (g : X11Geometry) (w : World) :
  watchLast w !! t = Some g →
  let w1 := geometry_resume t None w in
  let w2 := geometry_resume t (Some g) w1 in
  isVisible w1 = false ∧ lastMapped w1 = false
  ∧ state w1 = state w ∧ timers w1 = timers w
  ∧ watchLast w1 !! t = Some g
  ∧ w2 = w1
  ∧ ∀ windowId active,
      isVisible (visibility_resume windowId active w2) = false.
Proof.
  intros Hl. cbv zeta. rewrite geometry_resume_missing.
  set (u := record_effect (Invoked t OnMissing) w).
  destruct (onMissing_control u) as [(_&_&Ht&_&Hwl&_) Hst].
  assert (Hv : isVisible (onMissing u) = false ∧ lastMapped (onMissing u) = false).
  { unfold u. clear. open_world w. open_window; [destruct v|]; by evaluate. }
  destruct Hv as [Hv Hm].
  assert (Hl1 : watchLast (onMissing u) !! t = Some g) by (by rewrite Hwl).
  rewrite (geometry_resume_unchanged t g _ Hl1).
  split_and!; try done.
  intros windowId active.
  destruct (visibility_resume_flags windowId active (onMissing u)) as [Fm _].
  destruct (overlay (onMissing u)) as [win|] eqn:Ho.
  - destruct (visibility_resume_overlay windowId active _ win Ho)
      as (win' & Ho' & Hvis).
    rewrite (isVisible_overlay _ _ Ho'), Hvis, Hm. done.
  - destruct (visibility_resume_control windowId active (onMissing u))
      as [(_&_&_&_&_&_&_&_&_&_&_&_&_&_&Hh&_) _].
    unfold has_overlay in Hh. rewrite Ho in Hh. unfold isVisible.
    by destruct (overlay (visibility_resume windowId active (onMissing u))).
Qed.

Lemma hidden_after_transient_miss_witness :
  let w := run [Attach 7; TimerFires 0; GeometryResolves 0 7 (Some g1);
                TimerFires 1; ActiveResolves 7 (Some 7)] world0 in
  isVisible w = true
  ∧ isVisible (visibility_resume 7 (Some 7)
                 (geometry_resume 0 (Some g1) (geometry_resume 0 None w)))
    = false.
Proof.
  cbv zeta. split; [vm_compute; reflexivity|].
  refine (proj2 (proj2 (proj2 (proj2 (proj2 (proj2
            (hidden_after_transient_miss 0 g1 _ _)))))) 7 (Some 7)).
  vm_compute. reflexivity.
Defined.

(** ** Follow mode and the snapshot *)

Lemma keeps_snapshot_step (pb : option Rectangle) (pd : Rectangle) (ho : bool)
    (e : Event) (w : World) :
  releases e = false →
  keeps_snapshot pb w ∧ primaryDisplay w = pd ∧ has_overlay w = ho →
  keeps_snapshot pb (step e w) ∧ primaryDisplay (step e w) = pd
  ∧ has_overlay (step e w) = ho.
Proof.
  intros Hrel ((Hp & Hm) & Hd & Ho). unfold keeps_snapshot.
  destruct e; unfold step; try discriminate Hrel.
  - destruct (attach_frame windowId w) as (H1&_&_&H3&H2).
    rewrite H1, H3, (H2 Hm).
    by destruct (attach_state windowId w) as [-> | ->].
  - destruct enable; [|discriminate Hrel].
    destruct (isEnabled w) eqn:He; [|by rewrite followFocused_disabled].
    rewrite (followFocused_true_enabled w He). unfold snd, has_overlay. cbv zeta.
    destruct (stopAll_frame w) as (_&H1&_&H2&H3&_). revert H1 H2 H3.
    generalize (stopAll w). intros u H1 H2 H3. wcbn. rewrite H1, H2, H3.
    fold (has_overlay w). by rewrite Ho, Hp.
  - unfold timer_fires. by destruct (timers w !! t) as [[]|].
  - case_decide; [|done].
    destruct (geometry_resume_frame watcher r
                (resolve (GeometryPoll watcher windowId) w))
      as (_&_&_&_&_&_&_&_&_&->&->&->&_&->).
    done.
  - case_decide; [|done].
    destruct (visibility_resume_control windowId active
                (resolve (VisibilityPoll windowId) w))
      as [(_&_&_&_&_&_&_&_&_&_&->&->&->&_&->&_) _].
    done.
  - case_decide; [|done].
    destruct (follow_resume_cases closure active
                (resolve (FollowPoll closure) w)) as [->|(id&_&_&_&->)]; [done|].
    cbv zeta.
    match goal with |- context [attach id ?u] =>
      destruct (attach_frame id u) as (H1&H3&_&H4&H2) end.
    unfold has_overlay in *. wcbn.
    rewrite H3, H4, (H2 Hm). done.
Qed.

Lemma run_isEnabled (es : list Event) (w : World) :
  isEnabled (run es w) = isEnabled w.
Proof.
  revert w. induction es as [|e es IH]; intros w; [done|].
  simpl. rewrite IH. unfold isEnabled.
  by destruct (step_isEnabled e w) as [-> ->].
Qed.

(** X7. Follow mode never takes a snapshot of the overlay's bounds: from
    [followFocused(true)] until the next release, whatever is attached by
    the follow loop or by the host, the snapshot stays what it was before.
    The [detach()] that ends follow mode therefore puts the overlay at the
    snapshot of an earlier attachment, or at the bounds of the primary
    display when there never was one, not where it was when follow mode
    began. *)
Theorem follow_takes_no_snapshot (w : World) (es : list Event) :
  isEnabled w = true →
  Forall (λ e, releases e = false) es →
  let w1 := run es (followFocused true w).2 in
  preAttachBounds w1 = preAttachBounds w
  ∧ (has_overlay w = true →
     bounds <$> overlay (detach w1).2
     = Some (default (primaryDisplay w) (preAttachBounds w))).
Proof.
  intros He Hes. cbv zeta.
  assert (H0 : keeps_snapshot (preAttachBounds w) (followFocused true w).2
               ∧ primaryDisplay (followFocused true w).2 = primaryDisplay w
               ∧ has_overlay (followFocused true w).2 = has_overlay w).
  { rewrite (followFocused_true_enabled w He).
    unfold snd, keeps_snapshot, has_overlay. cbv zeta.
    destruct (stopAll_frame w) as (_&H1&_&H2&H3&_). revert H1 H2 H3.
    generalize (stopAll w). intros u H1 H2 H3. wcbn. by rewrite H1, H2, H3. }
  assert (He1 : isEnabled (run es (followFocused true w).2) = true).
  { rewrite run_isEnabled. unfold isEnabled.
    destruct (step_isEnabled (FollowFocused true) w) as [E1 E2].
    unfold step in E1, E2. by rewrite E1, E2. }
  revert H0 He1. generalize (followFocused true w).2. intros u H0 He1.
  assert (H1 : keeps_snapshot (preAttachBounds w) (run es u)
               ∧ primaryDisplay (run es u) = primaryDisplay w
               ∧ has_overlay (run es u) = has_overlay w).
  { clear He1. revert u H0. induction Hes as [|e es Hrel _ IH]; intros u H0;
      [done|].
    simpl. apply IH. by apply keeps_snapshot_step. }
  destruct H1 as ((Hp & _) & Hd & Ho). split; [done|].
  intros Hov. rewrite detach_restores; [|done|by rewrite Ho].
  unfold restore_target. by rewrite Hp, Hd.
Qed.

Lemma follow_takes_no_snapshot_witness :
  bounds <$> overlay
    (detach (run [FollowResolves 0 (Some 5); TimerFires 1;
                  GeometryResolves 1 5 (Some g1)]
               (followFocused true world0).2)).2
  = Some (rect 0 0 1920 1080).
Proof.
  refine (proj2 (follow_takes_no_snapshot world0
                   [FollowResolves 0 (Some 5); TimerFires 1;
                    GeometryResolves 1 5 (Some g1)] eq_refl _) eq_refl).
  repeat constructor.
Defined.

(** * The X11 provider *)

(** ** Runs of code units *)

Lemma takeWhile_app (f : N → bool) (a b : Str) :
  forallb f a = true →
  takeWhile f (a ++ b) = a ++ takeWhile f b.
Proof.
  induction a as [|c a IH]; [done|]. simpl. intros [-> Ha]%andb_prop.
  by rewrite IH.
Qed.

Lemma dropWhile_app (f : N → bool) (a b : Str) :
  forallb f a = true →
  dropWhile f (a ++ b) = dropWhile f b.
Proof.
  induction a as [|c a IH]; [done|]. simpl. intros [-> Ha]%andb_prop.
  by apply IH.
Qed.

Lemma takeWhile_stop (f : N → bool) (s : Str) :
  match s with c :: _ => f c = false | [] => True end →
  takeWhile f s = [].
Proof. destruct s as [|c r]; [done|]. simpl. by intros ->. Qed.

Lemma dropWhile_stop (f : N → bool) (s : Str) :
  match s with c :: _ => f c = false | [] => True end →
  dropWhile f s = s.
Proof. destruct s as [|c r]; [done|]. simpl. by intros ->. Qed.

Lemma take_drop_While (f : N → bool) (s : Str) :
  takeWhile f s ++ dropWhile f s = s.
Proof.
  induction s as [|c r IH]; [done|]. simpl. destruct (f c); [|done].
  simpl. by rewrite IH.
Qed.

Lemma takeWhile_all (f : N → bool) (s : Str) : forallb f (takeWhile f s) = true.
Proof.
  induction s as [|c r IH]; [done|]. simpl. destruct (f c) eqn:E; [|done].
  simpl. by rewrite E.
Qed.

Lemma dropWhile_head (f : N → bool) (s : Str) :
  match dropWhile f s with c :: _ => f c = false | [] => True end.
Proof.
  induction s as [|c r IH]; [done|]. simpl. destruct (f c) eqn:E; [done|].
  exact E.
Qed.

Lemma forallb_rev (f : N → bool) (s : Str) :
  forallb f (rev s) = forallb f s.
Proof.
  induction s as [|c r IH]; [done|]. simpl.
  rewrite forallb_app, IH. simpl. by destruct (f c), (forallb f r).
Qed.

Lemma dropWhile_all (f : N → bool) (s : Str) :
  forallb f s = true → dropWhile f s = [].
Proof.
  intros H. rewrite <- (app_nil_r s). by rewrite (dropWhile_app _ _ _ H).
Qed.

Lemma trim_tight (ws1 body ws2 : Str) :
  allSpace ws1 = true → allSpace ws2 = true → tight body →
  trim (ws1 ++ body ++ ws2) = body.
Proof.
  unfold allSpace, trim, trimStart, trimEnd. intros H1 H2 [Hh Hl].
  rewrite (dropWhile_app _ _ _ H1).
  assert (E : dropWhile isSpace (body ++ ws2) = body ++ ws2
              ∨ body = [] ∧ dropWhile isSpace (body ++ ws2) = []).
  { destruct body as [|c body].
    - right. split; [done|]. by apply dropWhile_all.
    - left. simpl. simpl in Hh. by rewrite Hh. }
  destruct E as [-> | [-> ->]]; [|done].
  rewrite rev_app_distr, dropWhile_app by (by rewrite forallb_rev).
  rewrite (dropWhile_stop _ _ Hl). apply rev_involutive.
Qed.

(** ** Classes of code units *)

Ltac ncases :=
  repeat match goal with
         | |- context [(?a <=? ?b)%N] => destruct (N.leb_spec a b)
         | |- context [(?a <? ?b)%N] => destruct (N.ltb_spec a b)
         | |- context [(?a =? ?b)%N] => destruct (N.eqb_spec a b)
         | H : context [(?a <=? ?b)%N] |- _ => destruct (N.leb_spec a b)
         | H : context [(?a <? ?b)%N] |- _ => destruct (N.ltb_spec a b)
         | H : context [(?a =? ?b)%N] |- _ => destruct (N.eqb_spec a b)
         end;
  simpl in *; try done; try lia.

Lemma isSpace_range (c : N) :
  isSpace c = true → (9 ≤ c ≤ 13 ∨ c = 32 ∨ 160 ≤ c)%N.
Proof.
  unfold isSpace.
  rewrite !orb_true_iff, !andb_true_iff, !N.leb_le, !N.eqb_eq. lia.
Qed.

Lemma isDigit_range (c : N) : isDigit c = true ↔ (48 ≤ c ≤ 57)%N.
Proof. unfold isDigit. rewrite andb_true_iff, !N.leb_le. lia. Qed.

Lemma digit_not_space (c : N) : isDigit c = true → isSpace c = false.
Proof.
  intros H%isDigit_range. destruct (isSpace c) eqn:E; [|done].
  apply isSpace_range in E. lia.
Qed.

Lemma digitChar_range (d : N) :
  (d < 36)%N → (48 ≤ digitChar d ≤ 57 ∧ d < 10
                ∨ 97 ≤ digitChar d ≤ 122 ∧ 10 ≤ d)%N.
Proof. unfold digitChar. ncases. Qed.

Lemma digitChar_not_space (d : N) : (d < 36)%N → isSpace (digitChar d) = false.
Proof.
  intros H%digitChar_range. destruct (isSpace _) eqn:E; [|done].
  apply isSpace_range in E. lia.
Qed.

Lemma digitValue_digitChar (radix d : N) :
  (d < radix)%N → (radix ≤ 36)%N → digitValue radix (digitChar d) = Some d.
Proof.
  intros Hd Hr. unfold digitValue, digitChar, isDigit.
  destruct (N.ltb_spec d 10).
  - replace ((48 <=? 48 + d) && (48 + d <=? 57))%N with true by ncases.
    replace (48 + d - 48)%N with d by lia. by ncases.
  - replace ((48 <=? 87 + d) && (87 + d <=? 57))%N with false by ncases.
    replace ((97 <=? 87 + d) && (87 + d <=? 122))%N with true by ncases.
    replace (87 + d - 87)%N with d by lia. by ncases.
Qed.

(** ** Printing and reading digits *)

Lemma digitsFuel_app (fuel : nat) (radix n : N) (acc : list N) :
  ∃ pre, digitsFuel fuel radix n acc = pre ++ acc
         ∧ (fuel ≠ O → pre ≠ [])
         ∧ ((0 < radix)%N → Forall (λ d, (d < radix)%N) pre).
Proof.
  revert n acc. induction fuel as [|fuel IH]; intros n acc.
  - by exists [].
  - simpl. destruct (N.ltb_spec n radix).
    + exists [(n mod radix)%N]. split_and!; [done..|].
      intros Hr. constructor; [|done]. by apply N.mod_lt, N.neq_0_lt_0.
    + destruct (IH (n / radix)%N ((n mod radix)%N :: acc)) as (pre & -> & _ & Hf).
      exists (pre ++ [(n mod radix)%N]). split_and!.
      * by rewrite <- app_assoc.
      * intros _. by destruct pre.
      * intros Hr. apply Forall_app. split; [by apply Hf|].
        constructor; [|done]. by apply N.mod_lt, N.neq_0_lt_0.
Qed.

Lemma digitsFuel_value (fuel : nat) (radix n : N) (acc : list N) :
  (n < radix ^ N.of_nat fuel)%N →
  fold_left (λ a d, a * radix + d)%N (digitsFuel fuel radix n acc) 0%N
  = fold_left (λ a d, a * radix + d)%N acc n.
Proof.
  revert n acc. induction fuel as [|fuel IH]; intros n acc Hn.
  - simpl in Hn. assert (n = 0%N) as -> by lia. done.
  - simpl. destruct (N.ltb_spec n radix) as [Hlt|Hge].
    + simpl. by rewrite N.mod_small.
    + assert (Hr : (0 < radix)%N).
      { destruct (N.eq_dec radix 0%N) as [->|]; [|lia].
        rewrite N.pow_0_l in Hn; lia. }
      rewrite IH.
      * simpl. f_equal. rewrite N.mul_comm. symmetry. apply N.div_mod. lia.
      * apply N.Div0.div_lt_upper_bound.
        rewrite Nat2N.inj_succ, N.pow_succ_r' in Hn. lia.
Qed.

Lemma digitsOf_value (radix n : N) :
  (2 ≤ radix)%N → radixValue radix (digitsOf radix n) = n.
Proof.
  intros Hr. unfold radixValue, digitsOf. rewrite digitsFuel_value; [done|].
  rewrite Nat2N.inj_succ, N2Nat.id.
  destruct (N.eq_dec n 0%N) as [->|Hn]; [simpl; lia|].
  apply N.lt_le_trans with (2 ^ N.succ (N.log2 n))%N.
  - apply N.log2_spec. lia.
  - apply N.pow_le_mono_l. lia.
Qed.

Lemma digitsOf_digits (radix n : N) :
  (0 < radix)%N →
  digitsOf radix n ≠ [] ∧ Forall (λ d, (d < radix)%N) (digitsOf radix n).
Proof.
  intros Hr. unfold digitsOf.
  destruct (digitsFuel_app (S (N.to_nat (N.log2 n))) radix n [])
    as (pre & -> & Hne & Hf).
  rewrite app_nil_r. split; [by apply Hne|by apply Hf].
Qed.

Lemma radixPrefix_digits (radix : N) (ds : list N) (rest : Str) :
  (radix ≤ 36)%N → Forall (λ d, (d < radix)%N) ds →
  radixPrefix radix (map digitChar ds ++ rest) = ds ++ radixPrefix radix rest.
Proof.
  intros Hr. induction 1 as [|d ds Hd _ IH]; [done|].
  simpl. by rewrite (digitValue_digitChar _ _ Hd Hr), IH.
Qed.

Lemma radixPrefix_stop (radix : N) (rest : Str) :
  match rest with c :: _ => digitValue radix c = None | [] => True end →
  radixPrefix radix rest = [].
Proof. destruct rest as [|c r]; [done|]. simpl. by intros ->. Qed.

Lemma toRadix_read (radix n : N) (rest : Str) :
  (2 ≤ radix ≤ 36)%N →
  match rest with c :: _ => digitValue radix c = None | [] => True end →
  radixPrefix radix (toRadix radix n ++ rest) = digitsOf radix n
  ∧ digitsOf radix n ≠ []
  ∧ radixValue radix (digitsOf radix n) = n.
Proof.
  intros [H2 H36] Hrest. destruct (digitsOf_digits radix n) as [Hne Hf]; [lia|].
  unfold toRadix.
  rewrite (radixPrefix_digits _ _ _ H36 Hf), (radixPrefix_stop _ _ Hrest).
  rewrite app_nil_r. split_and!; [done..|]. by apply digitsOf_value.
Qed.

(** ** Reading back a printed number *)

Lemma nearestDouble_small (n : N) : (n < 2 ^ 53)%N → nearestDouble n = Some n.
Proof.
  intros H. unfold nearestDouble. by destruct (N.ltb_spec n (2 ^ 53)%N); [|lia].
Qed.

Lemma toRadix_head (radix n : N) :
  (2 ≤ radix ≤ 36)%N →
  ∃ d ds, toRadix radix n = digitChar d :: map digitChar ds ∧ (d < radix)%N.
Proof.
  intros Hr. destruct (digitsOf_digits radix n) as [Hne Hf]; [lia|].
  unfold toRadix. destruct (digitsOf radix n) as [|d ds]; [done|].
  exists d, ds. split; [done|]. by inversion Hf.
Qed.

Lemma toRadix_tight (radix n : N) (pre : Str) :
  (2 ≤ radix ≤ 36)%N → pre = [] ∨ pre = [45%N] →
  tight (pre ++ toRadix radix n).
Proof.
  intros Hr Hpre. destruct (digitsOf_digits radix n) as [Hne Hf]; [lia|].
  unfold toRadix, tight. split.
  - destruct Hpre as [-> | ->]; [|done]. simpl.
    destruct (digitsOf radix n) as [|d ds]; [done|]. simpl.
    apply digitChar_not_space. inversion Hf; lia.
  - rewrite rev_app_distr, <- map_rev.
    assert (Hf' : Forall (λ d, (d < radix)%N) (rev (digitsOf radix n))).
    { by apply List.Forall_rev. }
    destruct (rev (digitsOf radix n)) as [|d ds] eqn:E.
    + apply (f_equal (@rev N)) in E. rewrite rev_involutive in E. done.
    + simpl. apply digitChar_not_space. inversion Hf'; lia.
Qed.

Lemma parseInt_printed (negative : bool) (n : N) (rest : Str) :
  (n < 2 ^ 53)%N →
  match rest with c :: _ => digitValue 10 c = None | [] => True end →
  parseInt 10 ((if negative then [45%N] else []) ++ toRadix 10 n ++ rest)
  = Finite (if negative then - Z.of_N n else Z.of_N n).
Proof.
  intros Hn Hrest.
  destruct (toRadix_read 10 n rest) as (Hp & Hne & Hv); [lia|done|].
  destruct (toRadix_head 10 n) as (d & ds & Hd & Hlt); [lia|].
  assert (Hc : (48 ≤ digitChar d ≤ 57)%N)
    by (destruct (digitChar_range d); lia).
  unfold parseInt, trimStart.
  assert (E : ∀ s, s = (if negative then [45%N] else []) ++ toRadix 10 n ++ rest →
              dropWhile isSpace s = s).
  { intros s ->. apply dropWhile_stop. destruct negative; [done|].
    rewrite Hd. simpl. apply digit_not_space, isDigit_range. lia. }
  rewrite (E _ eq_refl). clear E.
  remember ((if negative then [45%N] else []) ++ toRadix 10 n ++ rest) as s
    eqn:Es.
  assert (E : match s with
              | c :: r => if (c =? 45)%N then (true, r)
                          else if (c =? 43)%N then (false, r) else (false, s)
              | [] => (false, s)
              end = (negative, toRadix 10 n ++ rest)).
  { subst s. destruct negative; [done|]. rewrite Hd. simpl.
    destruct (N.eqb_spec (digitChar d) 45); [lia|].
    destruct (N.eqb_spec (digitChar d) 43); [lia|]. done. }
  rewrite E.
  simpl (10 =? 16)%N. cbv iota. rewrite Hp.
  destruct (digitsOf 10 n) as [|d0 ds0] eqn:Ed; [done|].
  rewrite Hv. unfold toNumber. by rewrite (nearestDouble_small _ Hn).
Qed.

Lemma parseInt_numberToString (z : Z) (rest : Str) :
  Z.abs z < 2 ^ 53 →
  match rest with c :: _ => digitValue 10 c = None | [] => True end →
  parseInt 10 (numberToString z ++ rest) = Finite z.
Proof.
  intros Hz Hrest. unfold numberToString. rewrite <- app_assoc.
  rewrite (parseInt_printed (z <? 0) (Z.abs_N z) rest); [|lia|done].
  f_equal. rewrite N2Z.inj_abs_N. destruct (Z.ltb_spec z 0); lia.
Qed.

Lemma numberToString_tight (z : Z) :
  tight (numberToString z) ∧ numberToString z ≠ [].
Proof.
  unfold numberToString. split.
  - apply toRadix_tight; [lia|]. by destruct (z <? 0); [right|left].
  - destruct (toRadix_head 10 (Z.abs_N z)) as (d & ds & -> & _); [lia|].
    by destruct (z <? 0).
Qed.

(** X8. [parseDecimalId] reads back what [String] prints: for every integer
    [z] of absolute value below 2^53, surrounded by any white space (as
    [xdotool] ends its output with a line feed), the result is [z].  An
    input that is empty or only white space gives null. *)
Theorem parseDecimalId_reads_printed (z : Z) (ws1 ws2 : Str) :
  Z.abs z < 2 ^ 53 → allSpace ws1 = true → allSpace ws2 = true →
  parseDecimalId (ws1 ++ numberToString z ++ ws2) = Some z
  ∧ parseDecimalId (ws1 ++ ws2) = None.
Proof.
  intros Hz H1 H2. destruct (numberToString_tight z) as [Ht Hne].
  unfold parseDecimalId. split.
  - rewrite (trim_tight _ _ _ H1 H2 Ht).
    destruct (numberToString z) as [|c r] eqn:E; [done|]. rewrite <- E.
    rewrite <- (app_nil_r (numberToString z)).
    by rewrite (parseInt_numberToString z [] Hz I).
  - assert (E : trim (ws1 ++ ws2) = []).
    { rewrite <- (app_nil_l ws2). by apply trim_tight. }
    by rewrite E.
Qed.

Lemma parseDecimalId_reads_printed_witness :
  parseDecimalId (numberToString 73400330 ++ [10%N]) = Some 73400330.
Proof.
  exact (proj1 (parseDecimalId_reads_printed 73400330 [] [10%N]
                  eq_refl eq_refl eq_refl)).
Defined.

Lemma parseInt16_prefixed (n : N) (rest : Str) :
  (n < 2 ^ 53)%N →
  match rest with c :: _ => digitValue 16 c = None | [] => True end →
  parseInt 16 (48%N :: 120%N :: toRadix 16 n ++ rest) = Finite (Z.of_N n).
Proof.
  intros Hn Hrest.
  destruct (toRadix_read 16 n rest) as (Hp & Hne & Hv); [lia|done|].
  unfold parseInt, trimStart. simpl dropWhile. cbv iota beta.
  simpl. rewrite Hp.
  destruct (digitsOf 16 n) as [|d0 ds0] eqn:Ed; [done|].
  rewrite Hv. unfold toNumber. by rewrite (nearestDouble_small _ Hn).
Qed.

Lemma hex_not_0x (n : N) : has0xPrefix (toRadix 16 n) = false.
Proof.
  destruct (digitsOf_digits 16 n) as [_ Hf]; [lia|].
  unfold toRadix. destruct (digitsOf 16 n) as [|a [|b ds]]; [done..|].
  simpl. inversion Hf as [|? ? _ Hf']. inversion Hf' as [|? ? Hb _].
  destruct (digitChar_range b) as [[? ?]|[? ?]]; [lia| |].
  - destruct (N.eqb_spec (digitChar b) 120); [lia|].
    destruct (N.eqb_spec (digitChar b) 88); [lia|].
    by rewrite andb_false_r.
  - assert (digitChar b = 87 + b)%N by (unfold digitChar; ncases).
    destruct (N.eqb_spec (digitChar b) 120); [lia|].
    destruct (N.eqb_spec (digitChar b) 88); [lia|].
    by rewrite andb_false_r.
Qed.

(** X9. [parseHexId] reads a window id as [wmctrl] prints it: [0x] followed
    by the hexadecimal digits of a number below 2^53, surrounded by any
    white space, gives that number.  The same digits without the prefix are
    rejected with null, although [parseInt] with radix 16 would read them. *)
Theorem parseHexId_requires_prefix (n : N) (ws1 ws2 : Str) :
  (n < 2 ^ 53)%N → allSpace ws1 = true → allSpace ws2 = true →
  parseHexId (ws1 ++ (48%N :: 120%N :: toRadix 16 n) ++ ws2) = Some (Z.of_N n)
  ∧ parseHexId (ws1 ++ toRadix 16 n ++ ws2) = None
  ∧ parseInt 16 (toRadix 16 n) = Finite (Z.of_N n).
Proof.
  intros Hn H1 H2. unfold parseHexId. split_and!.
  - assert (Ht : tight (48%N :: 120%N :: toRadix 16 n)).
    { destruct (toRadix_tight 16 n [] ltac:(lia) ltac:(by left)) as [_ Hl].
      split; [done|]. simpl in *.
      destruct (rev (toRadix 16 n)) as [|c r]; [done|]. exact Hl. }
    rewrite (trim_tight _ _ _ H1 H2 Ht).
    simpl has0xPrefix. cbv iota beta. simpl negb. cbv iota.
    rewrite <- (app_nil_r (toRadix 16 n)).
    by rewrite (parseInt16_prefixed n [] Hn I).
  - pose proof (toRadix_tight 16 n [] ltac:(lia) ltac:(by left)) as Ht.
    simpl in Ht. rewrite (trim_tight _ _ _ H1 H2 Ht).
    by rewrite hex_not_0x.
  - destruct (toRadix_read 16 n []) as (Hp & Hne & Hv); [lia|done|].
    destruct (toRadix_head 16 n) as (d & ds & Hd & Hlt); [lia|].
    rewrite app_nil_r in Hp.
    assert (Hx : has0xPrefix (toRadix 16 n) = false) by apply hex_not_0x.
    unfold parseInt, trimStart.
    rewrite (dropWhile_stop isSpace (toRadix 16 n))
      by (rewrite Hd; apply digitChar_not_space; lia).
    remember (toRadix 16 n) as s eqn:Es.
    assert (E : match s with
                | c :: r => if (c =? 45)%N then (true, r)
                            else if (c =? 43)%N then (false, r) else (false, s)
                | [] => (false, s)
                end = (false, s)).
    { rewrite Hd.
      destruct (digitChar_range d) as [[? ?]|[? ?]]; [lia| |];
        destruct (N.eqb_spec (digitChar d) 45); try lia;
        destruct (N.eqb_spec (digitChar d) 43); try lia; done. }
    rewrite E. simpl (16 =? 16)%N. cbv iota.
    assert (E2 : match s with
                 | z :: x :: r =>
                     if ((z =? 48) && ((x =? 120) || (x =? 88)))%N then r else s
                 | _ => s
                 end = s).
    { unfold has0xPrefix in Hx. destruct s as [|z [|x r]]; [done..|].
      by rewrite Hx. }
    rewrite E2, Hp.
    destruct (digitsOf 16 n) as [|d0 ds0] eqn:Ed; [done|].
    rewrite Hv. unfold toNumber. by rewrite (nearestDouble_small _ Hn).
Qed.

Lemma parseHexId_requires_prefix_witness :
  parseHexId (48%N :: 120%N :: toRadix 16 73400330) = Some 73400330
  ∧ parseHexId (toRadix 16 73400330) = None.
Proof.
  destruct (parseHexId_requires_prefix 73400330 [] [] eq_refl eq_refl eq_refl)
    as (H1 & H2 & _).
  rewrite !app_nil_r in H1, H2. by split.
Defined.

(** ** The active window *)

Lemma trimEnd_prefix (t : Str) : ∃ ws, t = trimEnd t ++ ws.
Proof.
  unfold trimEnd. exists (rev (takeWhile isSpace (rev t))).
  rewrite <- rev_app_distr, take_drop_While. by rewrite rev_involutive.
Qed.

Lemma digitValue_10_not_digit (c : N) :
  isDigit c = false → digitValue 10 c = None.
Proof.
  intros H. unfold digitValue. rewrite H.
  destruct ((97 <=? c) && (c <=? 122))%N eqn:E1.
  - apply andb_prop in E1 as [?%N.leb_le ?%N.leb_le].
    by destruct (N.ltb_spec (c - 87) 10); [lia|].
  - destruct ((65 <=? c) && (c <=? 90))%N eqn:E2; [|done].
    apply andb_prop in E2 as [?%N.leb_le ?%N.leb_le].
    by destruct (N.ltb_spec (c - 55) 10); [lia|].
Qed.

Lemma parseDecimalId_notANumber (s : Str) :
  notANumber s → parseDecimalId s = None.
Proof.
  unfold notANumber, parseDecimalId, trim. intros H.
  pose proof (dropWhile_head isSpace s) as Hh. fold (trimStart s) in Hh.
  destruct (trimEnd_prefix (trimStart s)) as (ws & E).
  destruct (trimEnd (trimStart s)) as [|c r]; [done|].
  rewrite E in H, Hh. simpl in H, Hh. destruct H as (Hd & H45 & H43).
  unfold parseInt, trimStart. simpl dropWhile. rewrite Hh.
  destruct (N.eqb_spec c 45); [done|]. destruct (N.eqb_spec c 43); [done|].
  simpl. by rewrite (digitValue_10_not_digit c Hd).
Qed.

(** X10. When [xdotool] fails, or prints something that does not start with
    a number, [getActiveWindow] gives null.  The follow tick then does
    nothing, and the visibility watchdog takes the target as not focused and
    leaves the overlay hidden. *)
Theorem no_active_window (r : ExecResult) (closure : nat) (windowId : Z)
    (w : World) :
  match r with ExecOk stdout => notANumber stdout | ExecFail => True end →
  X11Provider_getActiveWindow r = None
  ∧ follow_resume closure (X11Provider_getActiveWindow r) w = w
  ∧ lastActive (visibility_resume windowId (X11Provider_getActiveWindow r) w)
    = false
  ∧ isVisible (visibility_resume windowId (X11Provider_getActiveWindow r) w)
    = false.
Proof.
  intros Hr.
  assert (E : X11Provider_getActiveWindow r = None).
  { destruct r as [stdout|]; [|done]. by apply parseDecimalId_notANumber. }
  rewrite E. split_and!; try done.
  - by destruct (visibility_resume_flags windowId None w) as [_ ->].
  - destruct (overlay w) as [win|] eqn:Ho.
    + destruct (visibility_resume_overlay windowId None w win Ho)
        as (win' & Ho' & Hv).
      rewrite (isVisible_overlay _ _ Ho'), Hv. apply andb_false_r.
    + destruct (visibility_resume_control windowId None w)
        as [(_&_&_&_&_&_&_&_&_&_&_&_&_&_&Hh&_) _].
      unfold has_overlay in Hh. rewrite Ho in Hh. unfold isVisible.
      by destruct (overlay (visibility_resume windowId None w)).
Qed.

Lemma no_active_window_witness :
  isVisible (visibility_resume 7 (X11Provider_getActiveWindow ExecFail)
               (run [Attach 7] world0)) = false.
Proof.
  exact (proj2 (proj2 (proj2 (no_active_window ExecFail 0 7
                                (run [Attach 7] world0) I)))).
Defined.

(** ** Reading the geometry *)

Lemma getGeometry_line_ignored (g : Raw.Geometry) (line : Str) :
  ignoredLine line → getGeometry_line g line = g.
Proof.
  unfold ignoredLine, getGeometry_line. cbv zeta.
  by intros (-> & -> & -> & -> & ->).
Qed.

Lemma getGeometry_line_size (g : Raw.Geometry) (line : Str) :
  (startsWith Keys.width (trim line) = false →
   Raw.width (getGeometry_line g line) = Raw.width g)
  ∧ (startsWith Keys.height (trim line) = false →
     Raw.height (getGeometry_line g line) = Raw.height g).
Proof.
  unfold getGeometry_line. cbv zeta.
  split; intros Hs;
    destruct (startsWith Keys.absX _);
    [by destruct (searchNumber _ _ _)| |by destruct (searchNumber _ _ _)|];
    (destruct (startsWith Keys.absY _); [by destruct (searchNumber _ _ _)|]).
  - rewrite Hs. destruct (startsWith Keys.height _);
      [by destruct (searchNumber _ _ _)|].
    by destruct (startsWith Keys.mapState _).
  - destruct (startsWith Keys.width _); [by destruct (searchNumber _ _ _)|].
    rewrite Hs. by destruct (startsWith Keys.mapState _).
Qed.

Lemma fold_getGeometry_width (ls : list Str) (g : Raw.Geometry) :
  Forall (λ l, startsWith Keys.width (trim l) = false) ls →
  Raw.width (fold_left getGeometry_line ls g) = Raw.width g.
Proof.
  intros H. revert g. induction H as [|l ls Hl _ IH]; intros g; [done|].
  simpl. rewrite IH. by apply getGeometry_line_size.
Qed.

Lemma fold_getGeometry_height (ls : list Str) (g : Raw.Geometry) :
  Forall (λ l, startsWith Keys.height (trim l) = false) ls →
  Raw.height (fold_left getGeometry_line ls g) = Raw.height g.
Proof.
  intros H. revert g. induction H as [|l ls Hl _ IH]; intros g; [done|].
  simpl. rewrite IH. by apply getGeometry_line_size.
Qed.

(** X11. [getGeometry] never returns a geometry whose width or height is
    zero or negative.  It returns null when [xwininfo] fails, and when the
    output has no line that, trimmed, starts with [Width:], or none that
    starts with [Height:]: a missing size counts as 0. *)
Theorem getGeometry_needs_size (r : ExecResult) :
  (∀ g, X11Provider_getGeometry r = Some g →
        numberLe0 (Raw.width g) = false ∧ numberLe0 (Raw.height g) = false
        ∧ ∀ g', geometryOfRaw g = Some g' →
                0 < width (geom g') ∧ 0 < height (geom g'))
  ∧ (∀ stdout,
       r = ExecOk stdout →
       Forall (λ l, startsWith Keys.width (trim l) = false) (split 10 stdout)
       ∨ Forall (λ l, startsWith Keys.height (trim l) = false) (split 10 stdout) →
       X11Provider_getGeometry r = None)
  ∧ X11Provider_getGeometry ExecFail = None
  ∧ X11Provider_getGeometry (ExecOk []) = None.
Proof.
  split_and!; [| |done..].
  - intros g Hg. destruct r as [stdout|]; [|done].
    unfold X11Provider_getGeometry, getGeometry_parse in Hg.
    destruct (numberLe0 _ || numberLe0 _) eqn:E; [done|].
    injection Hg as <-. apply orb_false_elim in E as [E1 E2].
    split_and!; [done..|].
    revert E1 E2. generalize (fold_left getGeometry_line (split 10 stdout)
                               getGeometry_init).
    intros [gx gy gw gh gm] E1 E2 g'. unfold geometryOfRaw. simpl in *.
    destruct gx, gy, gw as [c| |], gh as [d| |]; try done.
    intros [= <-]. simpl in *. lia.
  - intros stdout -> H. unfold X11Provider_getGeometry, getGeometry_parse.
    destruct H as [H|H].
    + by rewrite (fold_getGeometry_width _ _ H).
    + rewrite (fold_getGeometry_height _ _ H). simpl. by rewrite orb_true_r.
Qed.

Lemma getGeometry_needs_size_witness :
  X11Provider_getGeometry (ExecOk Samples.onlyHeight) = None.
Proof.
  refine (proj1 (proj2 (getGeometry_needs_size (ExecOk Samples.onlyHeight)))
            _ eq_refl (or_introl _)).
  repeat constructor.
Defined.

(** ** Reading back the lines of xwininfo *)

Lemma stripPrefix_app (p s : Str) : stripPrefix p (p ++ s) = Some s.
Proof.
  induction p as [|c p IH]; [by destruct s|]. simpl. by rewrite N.eqb_refl.
Qed.

Lemma startsWith_app (p s : Str) : startsWith p (p ++ s) = true.
Proof. unfold startsWith. by rewrite stripPrefix_app. Qed.

Lemma searchNumber_skip (k : N) (key pre s : Str) (signed : bool) :
  forallb (λ c, negb (k =? c)%N) pre = true →
  searchNumber (k :: key) signed (pre ++ s) = searchNumber (k :: key) signed s.
Proof.
  induction pre as [|c pre IH]; [done|]. simpl app.
  intros [Hc Hp]%andb_prop. apply negb_true_iff in Hc.
  rewrite <- (IH Hp). simpl. unfold matchNumberAt. simpl. by rewrite Hc.
Qed.

Lemma toRadix10_digits (n : N) : forallb isDigit (toRadix 10 n) = true.
Proof.
  destruct (digitsOf_digits 10 n) as [_ Hf]; [lia|]. unfold toRadix.
  induction Hf as [|d ds Hd _ IH]; [done|]. simpl. rewrite IH, andb_true_r.
  apply isDigit_range. unfold digitChar.
  destruct (N.ltb_spec d 10); lia.
Qed.

Lemma matchNumberAt_printed (key gap : Str) (signed : bool) (z : Z) :
  allSpace gap = true → signed = true ∨ 0 ≤ z →
  matchNumberAt key signed (key ++ gap ++ numberToString z)
  = Some (numberToString z).
Proof.
  intros Hg Hs. unfold matchNumberAt. rewrite stripPrefix_app.
  rewrite (dropWhile_app _ _ _ Hg).
  destruct (numberToString_tight z) as [[Hh _] _].
  rewrite (dropWhile_stop _ _ Hh). unfold numberToString in *.
  destruct (toRadix_head 10 (Z.abs_N z)) as (d & ds & Hd & Hlt); [lia|].
  pose proof (toRadix10_digits (Z.abs_N z)) as Hall.
  assert (Ht : takeWhile isDigit (toRadix 10 (Z.abs_N z)) = toRadix 10 (Z.abs_N z)).
  { rewrite <- (app_nil_r (toRadix 10 _)) at 1.
    rewrite (takeWhile_app _ _ _ Hall). apply app_nil_r. }
  destruct (Z.ltb_spec z 0) as [Hneg|Hpos].
  - destruct Hs as [-> |]; [|lia]. simpl. rewrite Ht.
    by destruct (toRadix 10 (Z.abs_N z)).
  - simpl app in *.
    assert (Hc : (48 ≤ digitChar d ≤ 57)%N)
      by (destruct (digitChar_range d); lia).
    destruct (toRadix 10 (Z.abs_N z)) as [|c r]; [done|].
    injection Hd as -> _.
    destruct (N.eqb_spec (digitChar d) 45); [lia|].
    rewrite andb_false_r. by rewrite Ht.
Qed.

Lemma searchNumber_here (key s m1 : Str) (signed : bool) :
  matchNumberAt key signed s = Some m1 → searchNumber key signed s = Some m1.
Proof. intros H. destruct s; simpl; by rewrite H. Qed.

Lemma tight_join (a m b : Str) :
  match a with c :: _ => isSpace c = false | [] => False end →
  tight b → b ≠ [] → tight (a ++ m ++ b).
Proof.
  intros Ha [_ Hb] Hne. split.
  - by destruct a.
  - rewrite !rev_app_distr, <- app_assoc.
    destruct (rev b) as [|c r] eqn:E; [|done].
    apply (f_equal (@rev N)) in E. by rewrite rev_involutive in E.
Qed.

Lemma labels_eq :
  Xwininfo.labelX = [32; 32]%N ++ Keys.absX ++ [32; 32]%N
  ∧ Xwininfo.labelY = [32; 32]%N ++ Keys.absY ++ [32; 32]%N
  ∧ Xwininfo.labelWidth = [32; 32]%N ++ Keys.width ++ [32]%N
  ∧ Xwininfo.labelHeight = [32; 32]%N ++ Keys.height ++ [32]%N
  ∧ (∃ pre, Keys.absX = pre ++ [88; 58]%N
            ∧ forallb (λ c, negb (88 =? c)%N) pre = true)
  ∧ (∃ pre, Keys.absY = pre ++ [89; 58]%N
            ∧ forallb (λ c, negb (89 =? c)%N) pre = true)
  ∧ Keys.reX = [88; 58]%N ∧ Keys.reY = [89; 58]%N.
Proof.
  split_and!; try done.
  - by exists (firstn 20 Keys.absX).
  - by exists (firstn 20 Keys.absY).
Qed.

Lemma trim_labelled (key gap : Str) (z : Z) :
  match key with c :: _ => isSpace c = false | [] => False end →
  trim ([32; 32]%N ++ key ++ gap ++ numberToString z)
  = key ++ gap ++ numberToString z.
Proof.
  intros Hk. destruct (numberToString_tight z) as [Ht Hne].
  rewrite <- (app_nil_r (key ++ gap ++ numberToString z)) at 1.
  apply trim_tight; [done..|]. by apply tight_join.
Qed.

Lemma parseInt_numberToString' (z : Z) :
  Z.abs z < 2 ^ 53 → parseInt 10 (numberToString z) = Finite z.
Proof.
  intros Hz. rewrite <- (app_nil_r (numberToString z)).
  by apply parseInt_numberToString.
Qed.

Lemma getGeometry_line_X (g : Raw.Geometry) (z : Z) :
  Z.abs z < 2 ^ 53 →
  getGeometry_line g (Xwininfo.labelX ++ numberToString z)
  = {| Raw.x := Finite z; Raw.y := Raw.y g; Raw.width := Raw.width g;
       Raw.height := Raw.height g; Raw.mapped := Raw.mapped g |}.
Proof.
  intros Hz.
  destruct labels_eq as (-> & _ & _ & _ & (pre & E & Hpre) & _ & Hre & _).
  unfold getGeometry_line. cbv zeta. rewrite <- !app_assoc.
  rewrite trim_labelled by done. rewrite startsWith_app.
  rewrite Hre, E, <- app_assoc, searchNumber_skip by done.
  rewrite (searchNumber_here _ _ (numberToString z))
    by (by apply matchNumberAt_printed; [|left]).
  by rewrite parseInt_numberToString'.
Qed.

Lemma getGeometry_line_Y (g : Raw.Geometry) (z : Z) :
  Z.abs z < 2 ^ 53 →
  getGeometry_line g (Xwininfo.labelY ++ numberToString z)
  = {| Raw.x := Raw.x g; Raw.y := Finite z; Raw.width := Raw.width g;
       Raw.height := Raw.height g; Raw.mapped := Raw.mapped g |}.
Proof.
  intros Hz.
  destruct labels_eq as (_ & -> & _ & _ & _ & (pre & E & Hpre) & _ & Hre).
  unfold getGeometry_line. cbv zeta. rewrite <- !app_assoc.
  rewrite trim_labelled by done.
  replace (startsWith Keys.absX (Keys.absY ++ [32; 32]%N ++ numberToString z))
    with false by done.
  rewrite startsWith_app.
  rewrite Hre, E, <- app_assoc, searchNumber_skip by done.
  rewrite (searchNumber_here _ _ (numberToString z))
    by (by apply matchNumberAt_printed; [|left]).
  by rewrite parseInt_numberToString'.
Qed.

Lemma getGeometry_line_width (g : Raw.Geometry) (z : Z) :
  0 ≤ z < 2 ^ 53 →
  getGeometry_line g (Xwininfo.labelWidth ++ numberToString z)
  = {| Raw.x := Raw.x g; Raw.y := Raw.y g; Raw.width := Finite z;
       Raw.height := Raw.height g; Raw.mapped := Raw.mapped g |}.
Proof.
  intros Hz. destruct labels_eq as (_ & _ & -> & _).
  unfold getGeometry_line. cbv zeta. rewrite <- !app_assoc.
  rewrite trim_labelled by done.
  replace (startsWith Keys.absX (Keys.width ++ [32]%N ++ numberToString z))
    with false by done.
  replace (startsWith Keys.absY (Keys.width ++ [32]%N ++ numberToString z))
    with false by done.
  rewrite startsWith_app.
  rewrite (searchNumber_here _ _ (numberToString z))
    by (apply matchNumberAt_printed; [done|right; lia]).
  rewrite parseInt_numberToString' by lia. done.
Qed.

Lemma getGeometry_line_height (g : Raw.Geometry) (z : Z) :
  0 ≤ z < 2 ^ 53 →
  getGeometry_line g (Xwininfo.labelHeight ++ numberToString z)
  = {| Raw.x := Raw.x g; Raw.y := Raw.y g; Raw.width := Raw.width g;
       Raw.height := Finite z; Raw.mapped := Raw.mapped g |}.
Proof.
  intros Hz. destruct labels_eq as (_ & _ & _ & -> & _).
  unfold getGeometry_line. cbv zeta. rewrite <- !app_assoc.
  rewrite trim_labelled by done.
  replace (startsWith Keys.absX (Keys.height ++ [32]%N ++ numberToString z))
    with false by done.
  replace (startsWith Keys.absY (Keys.height ++ [32]%N ++ numberToString z))
    with false by done.
  replace (startsWith Keys.width (Keys.height ++ [32]%N ++ numberToString z))
    with false by done.
  rewrite startsWith_app.
  rewrite (searchNumber_here _ _ (numberToString z))
    by (apply matchNumberAt_printed; [done|right; lia]).
  rewrite parseInt_numberToString' by lia. done.
Qed.

Lemma getGeometry_line_mapState (g : Raw.Geometry) (m : bool) :
  getGeometry_line g (if m then Xwininfo.viewable else Xwininfo.unmapped)
  = {| Raw.x := Raw.x g; Raw.y := Raw.y g; Raw.width := Raw.width g;
       Raw.height := Raw.height g; Raw.mapped := m |}.
Proof. destruct m; vm_compute; reflexivity. Qed.

(** What one line of a report does to the values read so far: nothing, or
    it sets the one field it names. *)
Lemma getGeometry_line_known (g : X11Geometry) (acc : Raw.Geometry) (l : Str) :
  Z.abs (x (geom g)) < 2 ^ 53 → Z.abs (y (geom g)) < 2 ^ 53 →
  0 ≤ width (geom g) < 2 ^ 53 → 0 ≤ height (geom g) < 2 ^ 53 →
  ignoredLine l ∨ l ∈ Xwininfo.lines g →
  let r := getGeometry_line acc l in
  (Raw.x r = Raw.x acc ∨ Raw.x r = Finite (x (geom g)))
  ∧ (Raw.y r = Raw.y acc ∨ Raw.y r = Finite (y (geom g)))
  ∧ (Raw.width r = Raw.width acc ∨ Raw.width r = Finite (width (geom g)))
  ∧ (Raw.height r = Raw.height acc ∨ Raw.height r = Finite (height (geom g)))
  ∧ (Raw.mapped r = Raw.mapped acc ∨ Raw.mapped r = mapped g).
Proof.
  intros Hx Hy Hw Hh [Hi|Hl]; cbv zeta.
  { rewrite (getGeometry_line_ignored _ _ Hi). split_and!; by left. }
  unfold Xwininfo.lines in Hl.
  rewrite !elem_of_cons, elem_of_nil in Hl.
  destruct Hl as [->|[->|[->|[->|[->|[]]]]]].
  - rewrite (getGeometry_line_X _ _ Hx). cbn. split_and!; auto.
  - rewrite (getGeometry_line_Y _ _ Hy). cbn. split_and!; auto.
  - rewrite (getGeometry_line_width _ _ Hw). cbn. split_and!; auto.
  - rewrite (getGeometry_line_height _ _ Hh). cbn. split_and!; auto.
  - rewrite getGeometry_line_mapState. cbn. split_and!; auto.
Qed.

(** A field that every line either keeps or sets to [v], and that the line
    [k] sets to [v], is [v] after any lines with [k] among them. *)
Lemma fold_getGeometry_field {A : Type} (field : Raw.Geometry → A) (v : A)
    (k : Str) (known : Str → Prop) :
  (∀ l acc, known l →
            field (getGeometry_line acc l) = field acc
            ∨ field (getGeometry_line acc l) = v) →
  (∀ acc, field (getGeometry_line acc k) = v) →
  ∀ ls acc, Forall known ls → field acc = v ∨ k ∈ ls →
            field (fold_left getGeometry_line ls acc) = v.
Proof.
  intros Hstep Hkey ls. induction ls as [|l ls IH]; intros acc Hf Hv.
  - destruct Hv as [Hv|Hv]; [done|]. by apply elem_of_nil in Hv.
  - inversion Hf as [|? ? Hl Hf']. subst. simpl. apply IH; [done|].
    destruct Hv as [Hv|[->|Hv]%elem_of_cons].
    + left. destruct (Hstep l acc Hl) as [->| ->]; done.
    + left. apply Hkey.
    + by right.
Qed.

(** X12. [getGeometry] reads back what [xwininfo] prints.  For a geometry
    with positive width and height and coordinates below 2^53 in absolute
    value: when the five lines that [xwininfo] prints for it are lines of
    the output, in any order and any number of times, and every other line
    of the output, trimmed, starts with none of the five keys, the result is
    exactly that geometry, with [mapped] true for [IsViewable] and false for
    [IsUnMapped]. *)
Theorem getGeometry_reads_xwininfo (g : X11Geometry) (stdout : Str) :
  Z.abs (x (geom g)) < 2 ^ 53 → Z.abs (y (geom g)) < 2 ^ 53 →
  0 < width (geom g) < 2 ^ 53 → 0 < height (geom g) < 2 ^ 53 →
  Forall (λ l, ignoredLine l ∨ l ∈ Xwininfo.lines g) (split 10 stdout) →
  Forall (λ l, l ∈ split 10 stdout) (Xwininfo.lines g) →
  X11Provider_getGeometry (ExecOk stdout) ≫= geometryOfRaw = Some g.
Proof.
  intros Hx Hy Hw Hh Hknown Hall.
  assert (Hw' : 0 ≤ width (geom g) < 2 ^ 53) by lia.
  assert (Hh' : 0 ≤ height (geom g) < 2 ^ 53) by lia.
  pose proof (λ l acc H, getGeometry_line_known g acc l Hx Hy Hw' Hh' H) as Hk.
  cbv zeta in Hk.
  unfold Xwininfo.lines in Hall. rewrite !Forall_cons in Hall.
  destruct Hall as (HX & HY & HW & HH & HM & _).
  unfold X11Provider_getGeometry, getGeometry_parse. cbv zeta.
  assert (Ex : Raw.x (fold_left getGeometry_line (split 10 stdout)
                        getGeometry_init) = Finite (x (geom g))).
  { apply (fold_getGeometry_field Raw.x _
             (Xwininfo.labelX ++ numberToString (x (geom g))) _
             (λ l acc H, proj1 (Hk l acc H))); [|done|by right].
    intros acc. by rewrite (getGeometry_line_X _ _ Hx). }
  assert (Ey : Raw.y (fold_left getGeometry_line (split 10 stdout)
                        getGeometry_init) = Finite (y (geom g))).
  { apply (fold_getGeometry_field Raw.y _
             (Xwininfo.labelY ++ numberToString (y (geom g))) _
             (λ l acc H, proj1 (proj2 (Hk l acc H)))); [|done|by right].
    intros acc. by rewrite (getGeometry_line_Y _ _ Hy). }
  assert (Ew : Raw.width (fold_left getGeometry_line (split 10 stdout)
                            getGeometry_init) = Finite (width (geom g))).
  { apply (fold_getGeometry_field Raw.width _
             (Xwininfo.labelWidth ++ numberToString (width (geom g))) _
             (λ l acc H, proj1 (proj2 (proj2 (Hk l acc H)))));
      [|done|by right].
    intros acc. by rewrite (getGeometry_line_width _ _ Hw'). }
  assert (Eh : Raw.height (fold_left getGeometry_line (split 10 stdout)
                             getGeometry_init) = Finite (height (geom g))).
  { apply (fold_getGeometry_field Raw.height _
             (Xwininfo.labelHeight ++ numberToString (height (geom g))) _
             (λ l acc H, proj1 (proj2 (proj2 (proj2 (Hk l acc H))))));
      [|done|by right].
    intros acc. by rewrite (getGeometry_line_height _ _ Hh'). }
  assert (Em : Raw.mapped (fold_left getGeometry_line (split 10 stdout)
                             getGeometry_init) = mapped g).
  { apply (fold_getGeometry_field Raw.mapped _
             (if mapped g then Xwininfo.viewable else Xwininfo.unmapped) _
             (λ l acc H, proj2 (proj2 (proj2 (proj2 (Hk l acc H))))));
      [|done|by right].
    intros acc. by rewrite getGeometry_line_mapState. }
  revert Ex Ey Ew Eh Em.
  generalize (fold_left getGeometry_line (split 10 stdout) getGeometry_init).
  intros [rx ry rw rh rm]. cbn. intros -> -> -> -> ->. cbn.
  destruct (Z.leb_spec (width (geom g)) 0); [lia|].
  destruct (Z.leb_spec (height (geom g)) 0); [lia|].
  cbn. by destruct g as [[? ? ? ?] ?].
Qed.

Lemma getGeometry_reads_xwininfo_witness :
  X11Provider_getGeometry (ExecOk Samples.report) ≫= geometryOfRaw = Some g1.
Proof.
  apply (getGeometry_reads_xwininfo g1 Samples.report); try done.
  - unfold ignoredLine. cbv zeta.
    apply (bool_decide_unpack _). vm_compute. exact I.
  - apply (bool_decide_unpack _). vm_compute. exact I.
Defined.

(** ** Reading the output of wmctrl *)

Lemma some_run (f : N → bool) (run rest : Str) :
  run ≠ [] → forallb f run = true →
  some f (run ++ rest) = Some (run ++ takeWhile f rest, dropWhile f rest).
Proof.
  intros Hne Hf. unfold some.
  rewrite (takeWhile_app _ _ _ Hf), (dropWhile_app _ _ _ Hf).
  by destruct run.
Qed.

Lemma some_run_stop (f : N → bool) (run rest : Str) :
  run ≠ [] → forallb f run = true →
  match rest with c :: _ => f c = false | [] => True end →
  some f (run ++ rest) = Some (run, rest).
Proof.
  intros Hne Hf Hs. rewrite (some_run _ _ _ Hne Hf).
  by rewrite (takeWhile_stop _ _ Hs), (dropWhile_stop _ _ Hs), app_nil_r.
Qed.

(** A run of one class, not empty, starts with no member of a disjoint
    class. *)
Lemma head_other_class (f g : N → bool) (run rest : Str) :
  (∀ c, g c = true → f c = false) →
  run ≠ [] → forallb g run = true →
  match run ++ rest with c :: _ => f c = false | [] => True end.
Proof.
  intros Hd Hne Hg. destruct run as [|c run]; [done|].
  simpl in *. apply andb_prop in Hg as [Hc _]. by apply Hd.
Qed.

Lemma isHexDigit_range (c : N) :
  isHexDigit c = true ↔ (48 ≤ c ≤ 57 ∨ 97 ≤ c ≤ 102 ∨ 65 ≤ c ≤ 70)%N.
Proof.
  unfold isHexDigit, isDigit.
  rewrite !orb_true_iff, !andb_true_iff, !N.leb_le. lia.
Qed.

Lemma space_not_hex (c : N) : isSpace c = true → isHexDigit c = false.
Proof.
  intros H%isSpace_range. destruct (isHexDigit c) eqn:E; [|done].
  apply isHexDigit_range in E. lia.
Qed.

Lemma space_not_notSpace (c : N) : isSpace c = true → notSpace c = false.
Proof. unfold notSpace. by intros ->. Qed.

Lemma notSpace_not_space (c : N) : notSpace c = true → isSpace c = false.
Proof. unfold notSpace. by destruct (isSpace c). Qed.

Lemma toRadix16_hex (n : N) : forallb isHexDigit (toRadix 16 n) = true.
Proof.
  destruct (digitsOf_digits 16 n) as [_ Hf]; [lia|].
  unfold toRadix. induction Hf as [|d ds Hd _ IH]; [done|].
  simpl. rewrite IH, andb_true_r. apply isHexDigit_range.
  unfold digitChar. destruct (N.ltb_spec d 10); lia.
Qed.

Lemma zeros_hex (zeros : nat) : forallb isHexDigit (replicate zeros 48%N) = true.
Proof. induction zeros as [|k IH]; [done|]. simpl. by rewrite IH. Qed.

Lemma zeros_digits (zeros : nat) :
  replicate zeros 48%N = map digitChar (replicate zeros 0%N)
  ∧ Forall (λ d, (d < 16)%N) (replicate zeros 0%N)
  ∧ ∀ ds, radixValue 16 (replicate zeros 0%N ++ ds) = radixValue 16 ds.
Proof.
  induction zeros as [|k (IH1 & IH2 & IH3)]; [done|]. split_and!.
  - simpl. by rewrite IH1.
  - simpl. constructor; [lia|done].
  - intros ds. exact (IH3 ds).
Qed.

(** [parseHexId] on an id padded with zeros. *)
Lemma parseHexId_hexId (zeros : nat) (n : N) :
  (n < 2 ^ 53)%N → parseHexId (Wmctrl.hexId zeros n) = Some (Z.of_N n).
Proof.
  intros Hn. unfold parseHexId, Wmctrl.hexId.
  assert (Ht : tight (48%N :: 120%N :: replicate zeros 48%N ++ toRadix 16 n)).
  { destruct (toRadix_tight 16 n [] ltac:(lia) ltac:(by left)) as [_ Hl].
    split; [done|]. simpl in *.
    rewrite rev_app_distr.
    destruct (rev (toRadix 16 n)) as [|c r] eqn:Er; [|exact Hl].
    destruct (toRadix_head 16 n ltac:(lia)) as (d & ds & E & _).
    rewrite E in Er. apply (f_equal (@rev N)) in Er. rewrite rev_involutive in Er.
    discriminate Er. }
  pose proof (trim_tight [] _ [] eq_refl eq_refl Ht) as Htrim.
  rewrite app_nil_l, app_nil_r in Htrim. rewrite Htrim. clear Htrim Ht.
  simpl has0xPrefix. cbv iota beta. simpl negb. cbv iota.
  destruct (zeros_digits zeros) as (Ez & Hz & Hv).
  destruct (toRadix_read 16 n [] ltac:(lia) I) as (Hp & Hne & Hval).
  rewrite app_nil_r in Hp.
  unfold parseInt, trimStart. simpl dropWhile. cbv iota beta. simpl.
  rewrite Ez, (radixPrefix_digits 16 _ _ ltac:(lia) Hz), Hp.
  destruct (replicate zeros 0%N ++ digitsOf 16 n) as [|d0 ds0] eqn:Ed.
  { by destruct (replicate zeros 0%N), (digitsOf 16 n). }
  rewrite <- Ed, Hv, Hval. unfold toNumber.
  by rewrite (nearestDouble_small _ Hn).
Qed.

Lemma existsb_dropWhile (f g : N → bool) (s : Str) :
  existsb f s = false → existsb f (dropWhile g s) = false.
Proof.
  induction s as [|c r IH]; [done|]. simpl.
  intros [Hc Hr]%orb_false_elim. destruct (g c); [by apply IH|].
  simpl. by rewrite Hc, Hr.
Qed.

(** X13. [listWindows] reads a line of [wmctrl -l -x]: for an id below 2^53
    printed in hexadecimal after [0x], with any number of leading zeros, two
    columns without white space, the class and a title without line
    terminator, separated by any white space, the entry has that id, the
    class (the fourth column) and the title.  White space at the start of the
    title is lost. *)
Theorem windowOfLine_reads_wmctrl (zeros : nat) (n : N)
    (s1 c2 s2 c3 s3 cls s4 title : Str) :
  (n < 2 ^ 53)%N →
  gap s1 → gap s2 → gap s3 → gap s4 → column c2 → column c3 → column cls →
  existsb isLineTerminator title = false →
  windowOfLine (Wmctrl.line zeros n s1 c2 s2 c3 s3 cls s4 title)
  = Some {| WindowRef.id := Z.of_N n; WindowRef.title := trimStart title;
            WindowRef.wmClass := cls |}.
Proof.
  intros Hn [N1 A1] [N2 A2] [N3 A3] [N4 A4] [M2 B2] [M3 B3] [Mc Bc] Ht.
  unfold allSpace in *.
  assert (Hm : matchWindowLine (Wmctrl.line zeros n s1 c2 s2 c3 s3 cls s4 title)
               = Some (Wmctrl.hexId zeros n, cls, trimStart title)).
  { unfold Wmctrl.line, Wmctrl.hexId, matchWindowLine.
    rewrite <- !app_comm_cons. simpl andb. cbv iota.
    assert (G : ∀ s rest, s ≠ [] → forallb isSpace s = true →
                match s ++ rest with c :: _ => notSpace c = false | [] => True end).
    { intros s rest ? ?.
      by apply (head_other_class _ isSpace); [apply space_not_notSpace| |]. }
    assert (C : ∀ s rest, s ≠ [] → forallb notSpace s = true →
                match s ++ rest with c :: _ => isSpace c = false | [] => True end).
    { intros s rest ? ?.
      by apply (head_other_class _ notSpace); [apply notSpace_not_space| |]. }
    assert (Hx : forallb isHexDigit (replicate zeros 48%N ++ toRadix 16 n) = true).
    { by rewrite forallb_app, zeros_hex, toRadix16_hex. }
    assert (Nx : replicate zeros 48%N ++ toRadix 16 n ≠ []).
    { destruct (toRadix_head 16 n ltac:(lia)) as (d & ds & E & _).
      rewrite E. by destruct (replicate zeros 48%N). }
    rewrite (some_run_stop isHexDigit _ _ Nx Hx
               (head_other_class _ isSpace s1 _ space_not_hex N1 A1)).
    simpl mbind. cbv beta iota.
    rewrite (some_run_stop isSpace s1 _ N1 A1 (C _ _ M2 B2)).
    simpl mbind. cbv beta iota.
    rewrite (some_run_stop notSpace c2 _ M2 B2 (G _ _ N2 A2)).
    simpl mbind. cbv beta iota.
    rewrite (some_run_stop isSpace s2 _ N2 A2 (C _ _ M3 B3)).
    simpl mbind. cbv beta iota.
    rewrite (some_run_stop notSpace c3 _ M3 B3 (G _ _ N3 A3)).
    simpl mbind. cbv beta iota.
    rewrite (some_run_stop isSpace s3 _ N3 A3 (C _ _ Mc Bc)).
    simpl mbind. cbv beta iota.
    rewrite (some_run_stop notSpace cls _ Mc Bc (G _ _ N4 A4)).
    simpl mbind. cbv beta iota.
    rewrite (some_run isSpace s4 title N4 A4).
    simpl mbind. cbv beta iota.
    fold (trimStart title).
    unfold trimStart. by rewrite (existsb_dropWhile _ isSpace _ Ht). }
  unfold windowOfLine. rewrite Hm. simpl mbind. cbv beta iota.
  by rewrite (parseHexId_hexId zeros n Hn).
Qed.

Lemma windowOfLine_reads_wmctrl_witness :
  windowOfLine Samples.windowLine
  = Some {| WindowRef.id := 73400330; WindowRef.title := Samples.title;
            WindowRef.wmClass := Samples.class |}.
Proof.
  apply (windowOfLine_reads_wmctrl 1 73400330 [32; 32]%N [48]%N [32]%N
           Samples.host [32]%N Samples.class [32; 32]%N Samples.title);
    first [reflexivity | by split].
Defined.

Lemma split_app (sep : N) (a b : Str) :
  split sep (a ++ sep :: b) = split sep a ++ split sep b.
Proof.
  induction a as [|c a IH]; simpl.
  - by rewrite N.eqb_refl.
  - destruct (c =? sep)%N; [by rewrite IH|].
    rewrite IH. destruct (split sep a) as [|l ls] eqn:E; [|done].
    by destruct a as [|c' a]; simpl in E; [|destruct (c' =? sep)%N, (split sep a)].
Qed.

(** X14. [listWindows] works line by line: the entries read from an output
    are those of what precedes a line feed followed by those of what follows
    it, in that order, so a line that is not understood is skipped without
    effect on the others; an empty output, and a failing [wmctrl], give no
    entry. *)
Theorem listWindows_line_by_line (a b : Str) :
  X11Provider_listWindows (ExecOk (a ++ 10%N :: b))
  = X11Provider_listWindows (ExecOk a) ++ X11Provider_listWindows (ExecOk b)
  ∧ X11Provider_listWindows (ExecOk []) = X11Provider_listWindows ExecFail.
Proof.
  split; [|done]. unfold X11Provider_listWindows, nonEmptyLines.
  by rewrite split_app, List.filter_app, omap_app.
Qed.

(** ** The IPC channels *)



Lemma handle_detach (listing : list WindowRef.t) (w : World) :
  handle listing WindowAttachDetach w = (Done (detach w).1, (detach w).2).
Proof. unfold handle. by destruct (detach w). Qed.



(** X15. On a session without X11 every channel leaves the service as it is:
    [windowAttach.list], [windowAttach.attach] and
    [windowAttach.followFocused] reject with the same message,
    [windowAttach.detach] resolves to true and [windowAttach.state] reports
    the detached state. *)
Theorem ipc_without_provider (listing : list WindowRef.t) (r : Request)
    (w : World) :
  reachable w → isEnabled w = false →
  handle listing r w
  = (match r with
     | WindowAttachDetach => Done true
     | WindowAttachState => State detached_state
     | _ => Rejected Messages.requiresX11
     end, w).
Proof.
  intros Hr He. destruct (reachable_wf w Hr) as [_ Hidle].
  destruct (Hidle He) as (_ & _ & Hs).
  destruct r.
  - unfold handle. by rewrite He.
  - unfold handle. by rewrite He.
  - rewrite handle_detach, (detach_disabled w He). cbn [fst snd].
    by rewrite <- Hs, set_state_same.
  - unfold handle. by rewrite He.
  - unfold handle, getState. by rewrite Hs.
Qed.

Lemma ipc_without_provider_witness :
  handle [] (WindowAttachFollowFocused true) world_disabled
  = (Rejected Messages.requiresX11, world_disabled).
Proof.
  apply (ipc_without_provider [] (WindowAttachFollowFocused true)
           world_disabled); [|reflexivity].
  by exists (Some {| bounds := rect 0 0 1920 1080; visible := true |}),
    (rect 0 0 1920 1080), None, (Some false), true, [].
Defined.


